(** * databasepy: the query-construction and sanitisation layer of
      [databasepy/database.py], embedded shallowly.

    Python [str] values are modelled by [string] (characters are 8-bit codes,
    so the development covers ASCII text; [lower] folds [A]-[Z] only).
    Exceptions are values of [exn]; a call that may raise returns a
    [result]. Driver calls (sqlite3, psycopg2, pandas readers) are calls to a
    test double that records every open and close. *)

From Stdlib Require Import String Ascii List Bool Arith ZArith Lia.
From Stdlib Require Import Floats.SpecFloat.
Import ListNotations.

Local Open Scope list_scope.
Local Open Scope string_scope.

(** ** Exceptions and results *)

Inductive exn : Type :=
| AssertionError
| TypeError
| KeyError
| OverflowError
| UnboundLocalError
| DriverError (code : nat).

Inductive result (A : Type) : Type :=
| Ok (a : A)
| Raise (e : exn).

Arguments Ok {A} a.
Arguments Raise {A} e.

Definition bind {A B : Type} (m : result A) (k : A -> result B) : result B :=
  match m with
  | Ok a => k a
  | Raise e => Raise e
  end.

Notation "x <- m ;; k" := (bind m (fun x => k))
  (at level 61, m at next level, right associativity).

(** ** The [str] methods the module uses *)

Module Str.

(** The double-quote character, written by its code. *)
Definition dq : string := String (ascii_of_nat 34) EmptyString.

Definition is_upper (c : ascii) : bool :=
  Nat.leb 65 (nat_of_ascii c) && Nat.leb (nat_of_ascii c) 90.

Definition lower_char (c : ascii) : ascii :=
  if is_upper c then ascii_of_nat (nat_of_ascii c + 32) else c.

(** [s.lower()] *)
Fixpoint lower (s : string) : string :=
  match s with
  | EmptyString => EmptyString
  | String c s' => String (lower_char c) (lower s')
  end.

(** [sep.join(parts)] *)
Definition join (sep : string) (parts : list string) : string :=
  String.concat sep parts.

(** [s.replace(old, new)] for a non-empty [old]: a single scan from the
    left; after a match the scan resumes behind the matched text, so the
    matches replaced never overlap.  [skip] counts the characters of the
    current match still to be passed over. *)
Fixpoint replace_from (old new : string) (skip : nat) (s : string) : string :=
  match s with
  | EmptyString => EmptyString
  | String c s' =>
      match skip with
      | S k => replace_from old new k s'
      | O =>
          if String.prefix old s
          then new ++ replace_from old new (String.length old - 1) s'
          else String c (replace_from old new 0 s')
      end
  end.

(** With an empty [old] Python puts [new] before every character and at
    the end. *)
Fixpoint intersperse (new s : string) : string :=
  match s with
  | EmptyString => new
  | String c s' => new ++ String c (intersperse new s')
  end.

Definition replace (old new s : string) : string :=
  match old with
  | EmptyString => intersperse new s
  | _ => replace_from old new 0 s
  end.

(** [s.split(sep)] for a one-character separator;
    [cur] is the piece being read. *)
Fixpoint split_from (sep : ascii) (cur : string) (s : string) : list string :=
  match s with
  | EmptyString => [cur]
  | String c s' =>
      if Ascii.eqb c sep
      then cur :: split_from sep EmptyString s'
      else split_from sep (cur ++ String c EmptyString) s'
  end.

Definition split (sep : ascii) (s : string) : list string :=
  split_from sep EmptyString s.

(** [needle in s] *)
Fixpoint contains (needle s : string) : bool :=
  String.prefix needle s ||
  match s with
  | EmptyString => false
  | String _ s' => contains needle s'
  end.

(** [s.startswith(p)] as a proposition. *)
Definition startswith (s p : string) : Prop := exists r, s = p ++ r.

End Str.

(** ** The class [__Database]: the pure class methods *)

(** [languages = {'sqlite':'?','postgresql':'%s'}] *)
Definition languages : list (string * string) :=
  [("sqlite", "?"); ("postgresql", "%s")].

Fixpoint dict_get {V : Type} (d : list (string * V)) (k : string) : option V :=
  match d with
  | [] => None
  | (k', v) :: d' => if String.eqb k' k then Some v else dict_get d' k
  end.

(** [x in xs] on a list of strings *)
Definition str_in (x : string) (xs : list string) : bool :=
  existsb (String.eqb x) xs.

(** [len(set(xs))] *)
Definition len_set (xs : list string) : nat :=
  List.length (nodup string_dec xs).

(** [f'"{field}"'] *)
Definition quoted (field : string) : string := Str.dq ++ field ++ Str.dq.

(** [validate_query]: [query.replace(',)', ')')] *)
Definition validate_query (query : string) : string :=
  Str.replace ",)" ")" query.

(** The statement of line 77, before any conflict handling. *)
Definition insert_statement (table_name : string) (fields : list string)
    (token : string) : string :=
  "INSERT INTO " ++ table_name ++ " ("
    ++ Str.join ", " (map quoted fields) ++ ") VALUES ("
    ++ Str.join ", " (map (fun _ => token) fields) ++ ")".

Definition on_conflict_update_fields (fields on_conflict_fields : list string)
    : list string :=
  map quoted (filter (fun field => negb (str_in field on_conflict_fields)) fields).

Definition on_conflict_placeholder (update_fields : list string) : string :=
  "(" ++ Str.join ", " update_fields ++ ") = "
    ++ "(" ++ Str.join ", " (map (fun field => "EXCLUDED." ++ field) update_fields) ++ ")".

(** The test of lines 86 and 94. *)
Definition nothing_to_update (fields on_conflict_fields : list string)
    (ignore_on_conflict : bool) : bool :=
  ignore_on_conflict
  || Nat.eqb (len_set (fields ++ on_conflict_fields)%list) (List.length on_conflict_fields).

(** Lines 72 to 103 of [get_insert_query]: the statement as built, before
    the last line patches it. *)
Definition built_query (table_name : string) (fields : list string)
    (language : string) (on_conflict_fields : option (list string))
    (ignore_on_conflict : bool) : result string :=
  let language := Str.lower language in
  match dict_get languages language with
  | None => Raise AssertionError
  | Some token =>
      let query := insert_statement table_name fields token in
      match on_conflict_fields with
      | Some ((_ :: _) as ocf) =>
          let update_fields := on_conflict_update_fields fields ocf in
          let on_conflict_fields_placeholder := Str.join ", " (map quoted ocf) in
          let placeholder := on_conflict_placeholder update_fields in
          if String.eqb language "sqlite" then
            if nothing_to_update fields ocf ignore_on_conflict
            then Ok (Str.replace "INSERT" "INSERT OR IGNORE" query)
            else Ok (query ++ "ON CONFLICT (" ++ on_conflict_fields_placeholder
                       ++ ") DO UPDATE SET " ++ placeholder)
          else if String.eqb language "postgresql" then
            let query := query ++ "ON CONFLICT (" ++ on_conflict_fields_placeholder
                           ++ ") DO" in
            if nothing_to_update fields ocf ignore_on_conflict
            then Ok (query ++ " NOTHING")
            else Ok (query ++ " UPDATE SET " ++ placeholder)
          else Ok query
      | _ => Ok query
      end
  end.

Definition get_insert_query (table_name : string) (fields : list string)
    (language : string) (on_conflict_fields : option (list string))
    (ignore_on_conflict : bool) : result string :=
  query <- built_query table_name fields language on_conflict_fields
             ignore_on_conflict ;;
  Ok (validate_query query).

(** A list comprehension whose element expression may raise: elements are
    evaluated from the left and the first exception ends the evaluation. *)
Fixpoint comprehension {A B : Type} (f : A -> result B) (xs : list A)
    : result (list B) :=
  match xs with
  | [] => Ok []
  | x :: xs' =>
      y <- f x ;;
      ys <- comprehension f xs' ;;
      Ok (y :: ys)
  end.

(** ** Scalar values of a row

    The objects of Python and the numpy scalars the module registers
    adapters for, which is what the rows of [df.to_records()] hold. *)

Inductive pyval : Type :=
| PyNone
| PyBool (b : bool)
| PyInt (n : Z)
| PyFloat (x : spec_float)
| PyStr (s : string)
| PyDate (iso : string)
| NpInt64 (n : Z)
| NpInt32 (n : Z)
| NpFloat64 (x : spec_float)
| NpFloat32 (x : spec_float)
| NpBool (b : bool)
| NpDatetime64 (iso : string).

(** [isinstance(v, (int, float))]: [bool] is a subclass of [int] and
    [numpy.float64] one of [float]; no other numpy scalar is an instance of
    either. *)
Definition is_int_or_float (v : pyval) : bool :=
  match v with
  | PyBool _ | PyInt _ | PyFloat _ | NpFloat64 _ => true
  | _ => false
  end.

Definition is_nan (x : spec_float) : bool :=
  match x with
  | S754_nan => true
  | _ => false
  end.

(** The least magnitude at which [int.__float__] raises [OverflowError]:
    halfway between the largest double and [2^1024]. *)
Definition float_overflow : Z := (2 ^ 1024 - 2 ^ 970)%Z.

Definition fits_float (n : Z) : bool := (Z.abs n <? float_overflow)%Z.

(** [math.isnan(v)]: the argument is converted to a double first, which
    raises for an object that is no number and for an [int] out of the
    double range. *)
Definition isnan (v : pyval) : result bool :=
  match v with
  | PyFloat x | NpFloat64 x | NpFloat32 x => Ok (is_nan x)
  | PyBool _ | NpBool _ | NpInt64 _ | NpInt32 _ => Ok false
  | PyInt n => if fits_float n then Ok false else Raise OverflowError
  | PyNone | PyStr _ | PyDate _ | NpDatetime64 _ => Raise TypeError
  end.

(** [isinstance(v, (int, float)) and isnan(v)] *)
Definition is_numeric_nan (v : pyval) : result bool :=
  if is_int_or_float v then isnan v else Ok false.

(** [values[i][j]]; both indices come from [range(len(...))]. *)
Definition item (values : list (list pyval)) (i j : nat) : pyval :=
  nth j (nth i values []) PyNone.

Definition validate_insert_values (values : list (list pyval))
    : result (list (list pyval)) :=
  comprehension
    (fun i =>
       comprehension
         (fun j =>
            nan <- is_numeric_nan (item values i j) ;;
            Ok (if nan then PyNone else item values i j))
         (seq 0 (List.length (nth i values []))))
    (seq 0 (List.length values)).

(** ** The drivers, as a test double

    Every call of a method into sqlite3, psycopg2 or pandas is a [call].
    The double decides from the calls made so far whether the next one
    raises and what it returns; [world] keeps the log and the handles that
    are open.  Closing a connection returns normally and releases it;
    closing a cursor is asked of the double, since a [finally] block that
    closes both depends on it. *)

Record DataFrame : Type := {
  columns : list string;
  records : list (list pyval)
}.

Inductive decoder : Type := read_csv | read_pickle | read_parquet.

Inductive database : Type :=
| SQLiteDatabase (filepath : string)
| PostgreSQLDatabase (dbname user password : string).

Inductive call : Type :=
| Connect (self : database)
| ConnectionClose (connection : nat)
| ReadSql (query : string) (connection : nat)
| Execute (query : string) (connection : nat)
| FetchAll (cursor : nat)
| Commit (connection : nat)
| ExecuteMany (query : string) (values : list (list pyval)) (connection : nat)
| Cursor (connection : nat)
| ExecuteBatch (cursor : nat) (query : string) (values : list (list pyval))
| CursorClose (cursor : nat)
| ReadFile (method : decoder) (filepath : string).

Record double : Type := {
  raises : list call -> call -> option exn;
  dataframe_of : list call -> DataFrame;
  rows_of : list call -> list (list pyval)
}.

Record world : Type := {
  log : list call;
  sessions : list nat;
  cursors : list nat
}.

(** The local variables a [finally] block reads. *)
Record frame : Type := {
  connection : option nat;
  cursor : option nat
}.

Definition no_locals : frame := {| connection := None; cursor := None |}.

Definition new_world : world := {| log := []; sessions := []; cursors := [] |}.

Definition logged (c : call) (w : world) : world :=
  {| log := c :: log w; sessions := sessions w; cursors := cursors w |}.

Definition release (h : nat) (hs : list nat) : list nat :=
  filter (fun h' => negb (Nat.eqb h' h)) hs.

Section Methods.

Variable driver : double.

(** A method body: it reads and writes its frame and the world, and
    returns or raises. *)
Definition M (A : Type) : Type := frame * world -> result A * (frame * world).

Definition ret {A : Type} (a : A) : M A := fun s => (Ok a, s).

Definition throw {A : Type} (e : exn) : M A := fun s => (Raise e, s).

Definition mbind {A B : Type} (m : M A) (k : A -> M B) : M B :=
  fun s =>
    match m s with
    | (Ok a, s') => k a s'
    | (Raise e, s') => (Raise e, s')
    end.

Notation "x <~ m ;; k" := (mbind m (fun x => k))
  (at level 61, m at next level, right associativity).
Notation "m ;;; k" := (mbind m (fun _ => k))
  (at level 61, right associativity).

(** A pure class method called from a method body. *)
Definition lift {A : Type} (r : result A) : M A := fun s => (r, s).

(** [try: body finally: handler].  The handler always runs; when it
    raises, its exception is the one that leaves the statement. *)
Definition try_finally {A : Type} (body : M A) (handler : M unit) : M A :=
  fun s =>
    let (r, s1) := body s in
    match handler s1 with
    | (Ok _, s2) => (r, s2)
    | (Raise e, s2) => (Raise e, s2)
    end.

(** A method call runs on a frame of its own. *)
Definition method {A : Type} (body : M A) (w : world) : result A * world :=
  let (r, s) := body (no_locals, w) in (r, snd s).

Definition store_connection (c : nat) : M unit :=
  fun s => (Ok tt, ({| connection := Some c; cursor := cursor (fst s) |}, snd s)).

Definition store_cursor (c : nat) : M unit :=
  fun s => (Ok tt, ({| connection := connection (fst s); cursor := Some c |}, snd s)).

(** Reading a local that no assignment has reached. *)
Definition load_connection : M nat :=
  fun s =>
    match connection (fst s) with
    | Some c => (Ok c, s)
    | None => (Raise UnboundLocalError, s)
    end.

Definition load_cursor : M nat :=
  fun s =>
    match cursor (fst s) with
    | Some c => (Ok c, s)
    | None => (Raise UnboundLocalError, s)
    end.

(** One call into a driver: logged, and raising when the double says so. *)
Definition driver_call (c : call) : M unit :=
  fun s =>
    let w := snd s in
    match raises driver (log w) c with
    | Some e => (Raise e, (fst s, logged c w))
    | None => (Ok tt, (fst s, logged c w))
    end.

(** A call that hands out a new handle, numbered by its place in the log. *)
Definition fresh : M nat := fun s => (Ok (List.length (log (snd s))), s).

Definition open_session (h : nat) : M unit :=
  fun s =>
    let w := snd s in
    (Ok tt, (fst s, {| log := log w; sessions := h :: sessions w; cursors := cursors w |})).

Definition open_cursor (h : nat) : M unit :=
  fun s =>
    let w := snd s in
    (Ok tt, (fst s, {| log := log w; sessions := sessions w; cursors := h :: cursors w |})).

(** [sqlite3_connect(...)], [psycopg2_connect(...)]; the pass-through
    options of the constructor are the driver's business. *)
Definition get_connection (self : database) : M nat :=
  h <~ fresh ;;
  driver_call (Connect self) ;;;
  open_session h ;;;
  ret h.

(** [connection.close()] *)
Definition connection_close (c : nat) : M unit :=
  fun s =>
    let w := snd s in
    (Ok tt, (fst s, {| log := ConnectionClose c :: log w;
                       sessions := release c (sessions w);
                       cursors := cursors w |})).

(** [cursor.close()]: a call into the driver like the others.  When it
    raises the cursor stays open, and whatever follows it in a [finally]
    block is skipped. *)
Definition cursor_close (c : nat) : M unit :=
  fun s =>
    let w := snd s in
    match raises driver (log w) (CursorClose c) with
    | Some e => (Raise e, (fst s, logged (CursorClose c) w))
    | None =>
        (Ok tt, (fst s, {| log := CursorClose c :: log w;
                           sessions := sessions w;
                           cursors := release c (cursors w) |}))
    end.

(** [connection.cursor()] and the cursor [connection.execute(q)] returns *)
Definition connection_cursor (c : nat) : M nat :=
  h <~ fresh ;;
  driver_call (Cursor c) ;;;
  open_cursor h ;;;
  ret h.

Definition connection_execute (q : string) (c : nat) : M nat :=
  h <~ fresh ;;
  driver_call (Execute q c) ;;;
  open_cursor h ;;;
  ret h.

Definition cursor_fetchall (c : nat) : M (list (list pyval)) :=
  driver_call (FetchAll c) ;;;
  fun s => (Ok (rows_of driver (log (snd s))), s).

Definition read_sql (q : string) (c : nat) : M DataFrame :=
  driver_call (ReadSql q c) ;;;
  fun s => (Ok (dataframe_of driver (log (snd s))), s).

Definition read_file (d : decoder) (filepath : string) : M DataFrame :=
  driver_call (ReadFile d filepath) ;;;
  fun s => (Ok (dataframe_of driver (log (snd s))), s).

(** *** Methods of [__Database] *)

Definition select_query (self : database) (query : string)
    : world -> result DataFrame * world :=
  method
    (try_finally
       (c <~ get_connection self ;;
        store_connection c ;;;
        let query := validate_query query in
        c <~ load_connection ;;
        read_sql query c)
       (c <~ load_connection ;;
        connection_close c)).

Definition get_table (self : database) (table_name : string)
    : world -> result DataFrame * world :=
  select_query self ("SELECT * FROM " ++ table_name).

(** The loop of [query]; [responses] is the list built so far. *)
Fixpoint query_loop (c : nat) (qs : list string)
    (responses : list (list (list pyval))) : M (list (list (list pyval))) :=
  match qs with
  | [] => ret responses
  | q :: qs' =>
      cur <~ connection_execute q c ;;
      response <~ cursor_fetchall cur ;;
      driver_call (Commit c) ;;;
      query_loop c qs' (responses ++ [response])%list
  end.

Definition query (self : database) (query : string)
    : world -> result (list (list (list pyval))) * world :=
  method
    (let query := validate_query query in
     c <~ get_connection self ;;
     store_connection c ;;;
     try_finally
       (c <~ load_connection ;;
        query_loop c (Str.split ";" query) [])
       (c <~ load_connection ;;
        connection_close c)).

(** [reader = {'csv':read_csv, 'pkl':read_pickle, 'parquet':read_parquet}] *)
Definition reader : list (string * decoder) :=
  [("csv", read_csv); ("pkl", read_pickle); ("parquet", read_parquet)].

(** [filepath.split('.')[-1]] *)
Definition extension_of (filepath : string) : string :=
  last (Str.split "." filepath) EmptyString.

Definition read_table (filepath : string) : M DataFrame :=
  let extension := extension_of filepath in
  match dict_get reader extension with
  | Some method => read_file method filepath
  | None => throw TypeError
  end.

(** *** [insert] of the two subclasses *)

Record insert_kwargs : Type := {
  table_name : string;
  fields : list string;
  on_conflict_fields : option (list string);
  ignore_on_conflict : bool
}.

(** [self.__language] *)
Definition language_of (self : database) : string :=
  match self with
  | SQLiteDatabase _ => "sqlite"
  | PostgreSQLDatabase _ _ _ => "postgresql"
  end.

Definition statement_for (self : database) (query : option string)
    (kwargs : insert_kwargs) : result string :=
  match query with
  | Some q => Ok q
  | None =>
      get_insert_query (table_name kwargs) (fields kwargs) (language_of self)
        (on_conflict_fields kwargs) (ignore_on_conflict kwargs)
  end.

Definition insert (self : database) (values : list (list pyval))
    (query : option string) (kwargs : insert_kwargs)
    : world -> result unit * world :=
  method
    (values <~ lift (validate_insert_values values) ;;
     query <~ lift (statement_for self query kwargs) ;;
     match self with
     | SQLiteDatabase _ =>
         try_finally
           (c <~ get_connection self ;;
            store_connection c ;;;
            c <~ load_connection ;;
            driver_call (ExecuteMany query values c) ;;;
            c <~ load_connection ;;
            driver_call (Commit c))
           (c <~ load_connection ;;
            connection_close c)
     | PostgreSQLDatabase _ _ _ =>
         try_finally
           (c <~ get_connection self ;;
            store_connection c ;;;
            c <~ load_connection ;;
            cur <~ connection_cursor c ;;
            store_cursor cur ;;;
            cur <~ load_cursor ;;
            driver_call (ExecuteBatch cur query values) ;;;
            c <~ load_connection ;;
            driver_call (Commit c))
           (cur <~ load_cursor ;;
            cursor_close cur ;;;
            c <~ load_connection ;;
            connection_close c)
     end).

(** The keyword arguments a caller of [insert_file] may pass; [None] is
    an absent key. *)
Record file_kwargs : Type := {
  kw_query : option string;
  kw_fields : option (list string);
  kw_on_conflict_fields : option (list string);
  kw_ignore_on_conflict : option bool
}.

Definition get {A : Type} (key : option A) (default : A) : A :=
  match key with
  | Some a => a
  | None => default
  end.

Definition insert_file (self : database) (filepath : string)
    (table : string) (kwargs : file_kwargs) : world -> result unit * world :=
  fun w =>
    match method (read_table filepath) w with
    | (Raise e, w') => (Raise e, w')
    | (Ok df, w') =>
        insert self (records df) (kw_query kwargs)
          {| table_name := table;
             fields := get (kw_fields kwargs) (columns df);
             on_conflict_fields := kw_on_conflict_fields kwargs;
             ignore_on_conflict := get (kw_ignore_on_conflict kwargs) false |}
          w'
    end.

(** *** [SQLiteDatabase.get_schema] *)

Fixpoint index_of (name : string) (names : list string) : option nat :=
  match names with
  | [] => None
  | n :: names' =>
      if String.eqb n name then Some 0
      else option_map S (index_of name names')
  end.

(** [df[name].tolist()] *)
Definition column (df : DataFrame) (name : string) : result (list pyval) :=
  match index_of name (columns df) with
  | Some i => Ok (map (fun row => nth i row PyNone) (records df))
  | None => Raise KeyError
  end.

(** [sep.join(items)] on a list of objects: every item must be a [str]. *)
Fixpoint join_values (sep : string) (items : list pyval) : result string :=
  match items with
  | [] => Ok EmptyString
  | [PyStr x] => Ok x
  | PyStr x :: items' =>
      rest <- join_values sep items' ;;
      Ok (x ++ sep ++ rest)
  | _ => Raise TypeError
  end.

Definition newline : string := String (ascii_of_nat 10) EmptyString.

Definition get_schema (filepath : string) : world -> result string * world :=
  fun w =>
    let self := SQLiteDatabase filepath in
    match
      method
        (try_finally
           (c <~ get_connection self ;;
            store_connection c ;;;
            let query := "SELECT * FROM sqlite_master WHERE type IN ('table', 'view')" in
            c <~ load_connection ;;
            df <~ read_sql (validate_query query) c ;;
            lift (column df "sql"))
           (c <~ load_connection ;;
            connection_close c)) w
    with
    | (Ok schema, w') => (join_values (newline ++ newline) schema, w')
    | (Raise e, w') => (Raise e, w')
    end.

End Methods.

(** ** Vocabulary of the statements about the patch *)

Definition is_comma (c : ascii) : bool := Ascii.eqb c ",".

Definition starts_paren (s : string) : bool :=
  match s with
  | String c _ => Ascii.eqb c ")"
  | EmptyString => false
  end.

Fixpoint ends_comma (s : string) : bool :=
  match s with
  | EmptyString => false
  | String c EmptyString => is_comma c
  | String _ s' => ends_comma s'
  end.

(** The patch in the words of its description: every comma that stands
    directly before a closing parenthesis is dropped, and nothing else. *)
Fixpoint drop_commas (s : string) : string :=
  match s with
  | EmptyString => EmptyString
  | String c s' =>
      if is_comma c && starts_paren s' then drop_commas s'
      else String c (drop_commas s')
  end.

(** [t] is [s] with some of its commas taken out. *)
Inductive comma_erasure : string -> string -> Prop :=
| erasure_nil : comma_erasure EmptyString EmptyString
| erasure_keep c s t : comma_erasure s t -> comma_erasure (String c s) (String c t)
| erasure_drop s t : comma_erasure s t -> comma_erasure (String "," s) t.

(** A text the patch has nothing to do on. *)
Definition clean (s : string) : Prop := Str.contains ",)" s = false.

(** A piece that may stand before a closing parenthesis. *)
Definition closable (s : string) : Prop := clean s /\ ends_comma s = false.

(** ** Vocabulary of the statements about [get_insert_query] *)

(** The plain insert, with one placeholder token per field. *)
Definition plain_statement (table : string) (fields : list string)
    (token : string) : string :=
  "INSERT INTO " ++ table ++ " (" ++ Str.join ", " (map quoted fields)
    ++ ") VALUES (" ++ Str.join ", " (repeat token (List.length fields)) ++ ")".

(** The fields that are not part of the conflict key. *)
Definition update_fields (fields conflict_fields : list string) : list string :=
  filter (fun field => negb (str_in field conflict_fields)) fields.

Definition upsert_clause (conflict_fields updates : list string) : string :=
  "ON CONFLICT (" ++ Str.join ", " (map quoted conflict_fields)
    ++ ") DO UPDATE SET (" ++ Str.join ", " (map quoted updates)
    ++ ") = (" ++ Str.join ", " (map (fun field => "EXCLUDED." ++ quoted field) updates)
    ++ ")".

Definition do_nothing_clause (conflict_fields : list string) : string :=
  "ON CONFLICT (" ++ Str.join ", " (map quoted conflict_fields) ++ ") DO NOTHING".

(** The two dialects, the token each is known by after lowercasing, and
    the placeholder each one uses. *)
Inductive dialect : Type := embedded | client_server.

Definition dialect_of (language : string) : option dialect :=
  if String.eqb (Str.lower language) "sqlite" then Some embedded
  else if String.eqb (Str.lower language) "postgresql" then Some client_server
  else None.

Definition dialect_name (d : dialect) : string :=
  match d with
  | embedded => "sqlite"
  | client_server => "postgresql"
  end.

Definition placeholder_token (d : dialect) : string :=
  match d with
  | embedded => "?"
  | client_server => "%s"
  end.

(** The statement [get_insert_query] builds when conflict fields are given. *)
Definition conflict_statement (d : dialect) (table : string)
    (fields conflict_fields : list string) (ignore_on_conflict : bool) : string :=
  if nothing_to_update fields conflict_fields ignore_on_conflict then
    match d with
    | embedded =>
        Str.replace "INSERT" "INSERT OR IGNORE" (plain_statement table fields "?")
    | client_server =>
        plain_statement table fields "%s" ++ do_nothing_clause conflict_fields
    end
  else
    plain_statement table fields (placeholder_token d)
      ++ upsert_clause conflict_fields (update_fields fields conflict_fields).

(** ** Vocabulary of the statements about [validate_insert_values] *)

(** A numeric entry that is NaN, of whichever floating type. *)
Definition nan_entry (v : pyval) : bool :=
  match v with
  | PyFloat x | NpFloat64 x | NpFloat32 x => is_nan x
  | _ => false
  end.

(** A NaN that is an instance of [float]. *)
Definition float_nan (v : pyval) : bool :=
  match v with
  | PyFloat x | NpFloat64 x => is_nan x
  | _ => false
  end.

(** The entry [validate_insert_values] puts in the place of [v]. *)
Definition sanitized (v : pyval) : pyval :=
  if float_nan v then PyNone else v.

(** An entry [math.isnan] can be asked about: any entry but an [int] beyond
    the range of a double. *)
Definition convertible (v : pyval) : bool :=
  match v with
  | PyInt n => fits_float n
  | _ => true
  end.

(** ** Vocabulary of the statements about the adapters *)

(** [c in s] for a character. *)
Fixpoint has_char (c : ascii) (s : string) : bool :=
  match s with
  | EmptyString => false
  | String c' s' => Ascii.eqb c' c || has_char c s'
  end.

(** The sessions open after an operation were open before it: the
    operation has released what it acquired. *)
Definition sessions_released (before after : world) : Prop :=
  incl (sessions after) (sessions before).


Definition empty_dataframe : DataFrame := {| columns := []; records := [] |}.

(** A double on which no call raises. *)
Definition quiet : double :=
  {| raises := fun _ _ => None;
     dataframe_of := fun _ => empty_dataframe;
     rows_of := fun _ => [] |}.

(** A double whose connections refuse to hand out a cursor. *)
Definition cursor_fails : double :=
  {| raises := fun _ c =>
       match c with
       | Cursor _ => Some (DriverError 1)
       | _ => None
       end;
     dataframe_of := fun _ => empty_dataframe;
     rows_of := fun _ => [] |}.

(** ** The rest of [database.py]

    [query_from_file] reads its script with [open(filepath,'r')] and
    [f.read()]; [read_text] is that read, which raises when the file cannot
    be opened. *)

Definition query_from_file (driver : double) (read_text : string -> result string)
    (self : database) (filepath : string)
    : world -> result (list (list (list pyval))) * world :=
  fun w =>
    match read_text filepath with
    | Raise e => (Raise e, w)
    | Ok text => query driver self text w
    end.


(** ** [setup.py]: the requirements read from [requirements.txt] *)

Module Setup.

Definition lf : string := String (ascii_of_nat 10) EmptyString.
Definition cr : string := String (ascii_of_nat 13) EmptyString.

(** The ASCII characters [str.strip()] takes for whitespace: tab to carriage
    return, the four separators and the space. *)
Definition is_space (c : ascii) : bool :=
  (Nat.leb 9 (nat_of_ascii c) && Nat.leb (nat_of_ascii c) 13)
  || (Nat.leb 28 (nat_of_ascii c) && Nat.leb (nat_of_ascii c) 32).

Fixpoint lstrip (s : string) : string :=
  match s with
  | EmptyString => EmptyString
  | String c s' => if is_space c then lstrip s' else s
  end.

Fixpoint rstrip (s : string) : string :=
  match s with
  | EmptyString => EmptyString
  | String c s' =>
      match rstrip s' with
      | EmptyString => if is_space c then EmptyString else String c EmptyString
      | r => String c r
      end
  end.

(** [s.strip()] *)
Definition strip (s : string) : string := rstrip (lstrip s).

(** [requirement.strip().replace('\n','').replace('\r','')] *)
Definition tidy (requirement : string) : string :=
  Str.replace cr EmptyString (Str.replace lf EmptyString (strip requirement)).

(** [len(requirement) != 0 and requirement[0] != '#'] *)
Definition kept (requirement : string) : bool :=
  negb (Nat.eqb (String.length requirement) 0)
  && match requirement with
     | String c _ => negb (Ascii.eqb c "#")
     | EmptyString => false
     end.

(** The two comprehensions over the lines [fh.readlines()] returned. *)
Definition requirements (lines : list string) : list string :=
  filter kept (map tidy lines).

End Setup.

(** ** Vocabulary of the further statements *)

(** A change made to the first piece of a list. *)
Definition on_head (f : string -> string) (pieces : list string) : list string :=
  match pieces with
  | [] => []
  | p :: ps => f p :: ps
  end.

(** The number of times a character stands in a text. *)
Fixpoint count_char (c : ascii) (s : string) : nat :=
  match s with
  | EmptyString => 0
  | String c' s' => (if Ascii.eqb c' c then 1 else 0) + count_char c s'
  end.

(** The number of places where [,)] stands in a text. *)
Fixpoint count_comma_paren (s : string) : nat :=
  match s with
  | EmptyString => 0
  | String c s' =>
      (if is_comma c && starts_paren s' then 1 else 0) + count_comma_paren s'
  end.

(** The statements passed to [connection.execute], the first call first
    (the log has the last call first). *)
Fixpoint executed (l : list call) : list string :=
  match l with
  | [] => []
  | Execute q _ :: l' => (executed l' ++ [q])%list
  | _ :: l' => executed l'
  end.

(** A text with every [c] taken out. *)
Fixpoint without (c : ascii) (s : string) : string :=
  match s with
  | EmptyString => EmptyString
  | String a s' => if Ascii.eqb a c then without c s' else String a (without c s')
  end.


Definition first_char (s : string) : option ascii :=
  match s with
  | String c _ => Some c
  | EmptyString => None
  end.

Fixpoint last_char (s : string) : option ascii :=
  match s with
  | EmptyString => None
  | String c EmptyString => Some c
  | String _ s' => last_char s'
  end.

(** The ends of a text: nothing, or characters that are no whitespace. *)
Definition trimmed (s : string) : Prop :=
  (forall c, first_char s = Some c -> Setup.is_space c = false)
  /\ (forall c, last_char s = Some c -> Setup.is_space c = false).

(** A name the rewriting of [INSERT] passes by. *)
Definition insert_free (s : string) : Prop := Str.contains "INSERT" s = false.

(** A double that cannot connect. *)
Definition connect_fails : double :=
  {| raises := fun _ c =>
       match c with
       | Connect _ => Some (DriverError 2)
       | _ => None
       end;
     dataframe_of := fun _ => empty_dataframe;
     rows_of := fun _ => [] |}.

(** A double on which every statement after the first two fails, and whose
    file readers fail. *)
Definition flaky : double :=
  {| raises := fun l c =>
       match c with
       | Execute _ _ =>
           if Nat.leb 2 (List.length (executed l)) then Some (DriverError 3) else None
       | ExecuteMany _ _ _ | ExecuteBatch _ _ _ => Some (DriverError 4)
       | ReadSql _ _ => Some (DriverError 5)
       | ReadFile _ _ => Some (DriverError 6)
       | _ => None
       end;
     dataframe_of := fun _ => empty_dataframe;
     rows_of := fun _ => [] |}.


(** The calls of [mid], made one after the other on top of the log [base]
    (the last call first), have all returned. *)
Fixpoint all_returned (driver : double) (base mid : list call) : Prop :=
  match mid with
  | [] => True
  | c :: mid' =>
      raises driver (mid' ++ base)%list c = None /\ all_returned driver base mid'
  end.

(** A double whose catalog and files hold two tables. *)
Definition stocked : double :=
  {| raises := fun _ _ => None;
     dataframe_of := fun _ =>
       {| columns := ["name"; "sql"];
          records := [[PyStr "t"; PyStr "CREATE TABLE t (a)"];
                      [PyStr "u"; PyStr "CREATE TABLE u (b)"]] |};
     rows_of := fun _ => [[PyInt 1]] |}.

(** ** Facts on strings *)

Section StringFacts.

Lemma append_assoc (a b c : string) : (a ++ b) ++ c = a ++ b ++ c.
Proof. induction a as [|x a IH]; simpl; [reflexivity | now rewrite IH]. Qed.

Lemma append_nil_r (a : string) : a ++ EmptyString = a.
Proof. induction a as [|x a IH]; simpl; [reflexivity | now rewrite IH]. Qed.

Lemma prefix_nil (s : string) : String.prefix EmptyString s = true.
Proof. now destruct s. Qed.

Lemma prefix_cons (a : ascii) (p : string) (b : ascii) (s : string) :
  String.prefix (String a p) (String b s) = Ascii.eqb b a && String.prefix p s.
Proof.
  change (String.prefix (String a p) (String b s))
    with (if ascii_dec a b then String.prefix p s else false).
  destruct (ascii_dec a b) as [<-|H].
  - now rewrite Ascii.eqb_refl.
  - replace (Ascii.eqb b a) with false; [reflexivity|].
    symmetry. apply Ascii.eqb_neq. congruence.
Qed.

Lemma prefix_comma_paren (s : string) :
  String.prefix ",)" s =
  match s with
  | String c s' => is_comma c && starts_paren s'
  | EmptyString => false
  end.
Proof.
  destruct s as [|c s]; [reflexivity|].
  rewrite prefix_cons. unfold is_comma. f_equal.
  destruct s as [|d s]; [reflexivity|].
  rewrite prefix_cons, prefix_nil. apply andb_true_r.
Qed.

Lemma starts_paren_true (s : string) :
  starts_paren s = true -> exists r, s = String ")" r.
Proof.
  destruct s as [|c s]; simpl; [discriminate|].
  intros H. apply Ascii.eqb_eq in H. subst. now exists s.
Qed.

Lemma is_comma_true (c : ascii) : is_comma c = true -> c = ","%char.
Proof. apply Ascii.eqb_eq. Qed.

(** [validate_query], one character at a time. *)
Lemma validate_query_cons (c : ascii) (s : string) :
  validate_query (String c s) =
  if is_comma c && starts_paren s
  then String ")" (validate_query (match s with String _ r => r | EmptyString => EmptyString end))
  else String c (validate_query s).
Proof.
  unfold validate_query, Str.replace.
  change (Str.replace_from ",)" ")" 0 (String c s))
    with (if String.prefix ",)" (String c s)
          then ")" ++ Str.replace_from ",)" ")" 1 s
          else String c (Str.replace_from ",)" ")" 0 s)).
  rewrite prefix_comma_paren.
  destruct (is_comma c && starts_paren s) eqn:E; [|reflexivity].
  apply andb_prop in E as [_ E]. apply starts_paren_true in E as [r ->].
  reflexivity.
Qed.

Lemma validate_query_drop_commas_step (s : string) :
  validate_query s = drop_commas s
  /\ forall c, validate_query (String c s) = drop_commas (String c s).
Proof.
  induction s as [|a s [IH1 IH2]].
  - split; [reflexivity|]. intros c. rewrite validate_query_cons. simpl.
    now rewrite andb_false_r.
  - split; [apply IH2|]. intros c. rewrite validate_query_cons.
    cbn [drop_commas]. destruct (is_comma c && starts_paren (String a s)) eqn:E.
    + apply andb_prop in E as [_ E]. simpl in E. apply Ascii.eqb_eq in E. subst a.
      change (is_comma ")") with false. cbn [andb]. now rewrite IH1.
    + f_equal. rewrite IH2. reflexivity.
Qed.

(** The scan of [str.replace] and the description of the patch agree. *)
Lemma validate_query_drop_commas (s : string) :
  validate_query s = drop_commas s.
Proof. apply validate_query_drop_commas_step. Qed.

Lemma drop_commas_erasure (s : string) : comma_erasure s (drop_commas s).
Proof.
  induction s as [|c s IH]; simpl; [constructor|].
  destruct (is_comma c && starts_paren s) eqn:E.
  - apply andb_prop in E as [E _]. apply is_comma_true in E. subst.
    now constructor.
  - now constructor.
Qed.

Lemma starts_paren_drop_commas (s : string) :
  starts_paren (drop_commas s) = starts_paren s || String.prefix ",)" s.
Proof.
  rewrite prefix_comma_paren.
  destruct s as [|c s]; [reflexivity|]. cbn [drop_commas].
  destruct (is_comma c && starts_paren s) eqn:E.
  - apply andb_prop in E as [Ec E]. apply starts_paren_true in E as [r ->].
    apply is_comma_true in Ec. subst c. reflexivity.
  - simpl. now rewrite orb_false_r.
Qed.

Lemma contains_cons (needle : string) (c : ascii) (s : string) :
  Str.contains needle (String c s) =
  String.prefix needle (String c s) || Str.contains needle s.
Proof. reflexivity. Qed.

Lemma prefix_comma_comma_paren (c : ascii) (s : string) :
  String.prefix ",,)" (String c s) = is_comma c && String.prefix ",)" s.
Proof. apply prefix_cons. Qed.

Lemma drop_commas_cons (c : ascii) (s : string) :
  drop_commas (String c s) =
  if is_comma c && starts_paren s then drop_commas s
  else String c (drop_commas s).
Proof. reflexivity. Qed.

Lemma contains_drop_commas_step (s : string) :
  Str.contains ",)" (drop_commas s) = Str.contains ",,)" s
  /\ forall c, Str.contains ",)" (drop_commas (String c s))
               = Str.contains ",,)" (String c s).
Proof.
  induction s as [|a s [IH1 IH2]].
  - split; [reflexivity|]. intros c. rewrite drop_commas_cons.
    cbn [starts_paren]. rewrite andb_false_r.
    rewrite !contains_cons, prefix_comma_comma_paren, prefix_comma_paren.
    cbn [drop_commas starts_paren]. now rewrite !andb_false_r.
  - split; [apply IH2|]. intros c.
    rewrite (contains_cons ",,)"), prefix_comma_comma_paren.
    rewrite (drop_commas_cons c).
    destruct (is_comma c && starts_paren (String a s)) eqn:E.
    + apply andb_prop in E as [Ec E]. cbn [starts_paren] in E.
      apply Ascii.eqb_eq in E. subst a. rewrite Ec, IH2.
      rewrite prefix_comma_paren. change (is_comma ")") with false.
      reflexivity.
    + rewrite contains_cons, prefix_comma_paren, starts_paren_drop_commas, IH2.
      destruct (is_comma c) eqn:Ec; cbn [andb orb] in *; [|reflexivity].
      rewrite E. reflexivity.
Qed.

(** What is left of [,)] after the patch is what the text had of [,,)]. *)
Lemma contains_validate_query (s : string) :
  Str.contains ",)" (validate_query s) = Str.contains ",,)" s.
Proof. rewrite validate_query_drop_commas. apply contains_drop_commas_step. Qed.

Lemma starts_paren_app (a b : string) :
  starts_paren (a ++ b) =
  match a with
  | EmptyString => starts_paren b
  | _ => starts_paren a
  end.
Proof. now destruct a. Qed.

Lemma ends_comma_cons (c d : ascii) (s : string) :
  ends_comma (String c (String d s)) = ends_comma (String d s).
Proof. reflexivity. Qed.

Lemma ends_comma_app (a b : string) :
  ends_comma (a ++ b) =
  match b with
  | EmptyString => ends_comma a
  | _ => ends_comma b
  end.
Proof.
  destruct b as [|d b]; [now rewrite append_nil_r|].
  induction a as [|c a IH]; [reflexivity|].
  destruct a as [|c' a]; [reflexivity|].
  change (ends_comma ((String c' a) ++ String d b) = ends_comma (String d b)).
  exact IH.
Qed.

(** [,)] in a concatenation: in a part, or across the seam. *)
Lemma contains_app (a b : string) :
  Str.contains ",)" (a ++ b) =
  Str.contains ",)" a || Str.contains ",)" b || (ends_comma a && starts_paren b).
Proof.
  induction a as [|c a IH].
  - cbn [append]. change (Str.contains ",)" EmptyString) with false.
    cbn [ends_comma andb orb]. now rewrite orb_false_r.
  - change (String c a ++ b) with (String c (a ++ b)).
    rewrite !contains_cons, !prefix_comma_paren, IH, starts_paren_app.
    destruct a as [|d a].
    + change (Str.contains ",)" EmptyString) with false.
      cbn [starts_paren ends_comma].
      destruct (is_comma c), (starts_paren b), (Str.contains ",)" b); reflexivity.
    + rewrite ends_comma_cons.
      destruct (is_comma c), (starts_paren (String d a)),
        (Str.contains ",)" (String d a)), (Str.contains ",)" b),
        (ends_comma (String d a)), (starts_paren b); reflexivity.
Qed.

Lemma clean_app (a b : string) :
  clean a -> clean b ->
  ends_comma a = false \/ starts_paren b = false ->
  clean (a ++ b).
Proof.
  unfold clean. intros Ha Hb Hseam. rewrite contains_app, Ha, Hb.
  destruct Hseam as [-> | ->]; [reflexivity|]. now rewrite andb_false_r.
Qed.

Lemma clean_tail (c : ascii) (s : string) : clean (String c s) -> clean s.
Proof.
  unfold clean. rewrite contains_cons. intros H.
  now apply orb_false_elim in H.
Qed.

(** The patch leaves a clean text as it is. *)
Lemma validate_query_clean (s : string) : clean s -> validate_query s = s.
Proof.
  rewrite validate_query_drop_commas.
  induction s as [|c s IH]; [reflexivity|]. intros H.
  rewrite drop_commas_cons.
  assert (E : is_comma c && starts_paren s = false).
  { unfold clean in H. rewrite contains_cons, prefix_comma_paren in H.
    now apply orb_false_elim in H. }
  rewrite E, IH; [reflexivity|]. eapply clean_tail, H.
Qed.

Lemma closable_app (a b : string) :
  closable a -> closable b -> closable (a ++ b).
Proof.
  intros [Ha Ea] [Hb Eb]. split.
  - apply clean_app; auto.
  - rewrite ends_comma_app. now destruct b.
Qed.

Lemma closable_nil : closable EmptyString.
Proof. now split. Qed.

Lemma closable_quoted (field : string) : clean field -> closable (quoted field).
Proof.
  intros H. unfold quoted. split.
  - apply clean_app; [reflexivity| |now left].
    apply clean_app; [assumption|reflexivity|now right].
  - rewrite <- append_assoc. unfold Str.dq at 2. now rewrite ends_comma_app.
Qed.

Lemma closable_join (parts : list string) :
  Forall closable parts -> closable (Str.join ", " parts).
Proof.
  unfold Str.join.
  induction 1 as [|x parts Hx Hparts IH]; [apply closable_nil|].
  destruct parts as [|y parts]; [exact Hx|].
  change (closable (x ++ ", " ++ String.concat ", " (y :: parts))).
  apply closable_app; [exact Hx|].
  apply closable_app; [now split | exact IH].
Qed.

Lemma closable_quoted_all (names : list string) :
  Forall clean names -> Forall closable (map quoted names).
Proof.
  induction 1; constructor; auto using closable_quoted.
Qed.


Lemma map_const_repeat {A B : Type} (b : B) (xs : list A) :
  map (fun _ => b) xs = repeat b (List.length xs).
Proof. induction xs as [|x xs IH]; simpl; [reflexivity | now rewrite IH]. Qed.

Lemma lower_char_idempotent (c : ascii) :
  Str.lower_char (Str.lower_char c) = Str.lower_char c.
Proof. destruct c as [[] [] [] [] [] [] [] []]; reflexivity. Qed.

Lemma lower_idempotent (s : string) : Str.lower (Str.lower s) = Str.lower s.
Proof.
  induction s as [|c s IH]; [reflexivity|].
  cbn [Str.lower]. now rewrite lower_char_idempotent, IH.
Qed.

Lemma closable_repeat (token : string) (n : nat) :
  closable token -> Forall closable (repeat token n).
Proof. intros H. induction n; simpl; constructor; auto. Qed.

Lemma clean_plain_statement (table : string) (fields : list string) (token : string) :
  clean table -> Forall clean fields -> closable token ->
  clean (plain_statement table fields token).
Proof.
  intros Ht Hf Hk. unfold plain_statement.
  apply clean_app; [reflexivity| |now left].
  apply clean_app; [exact Ht| |now right].
  apply clean_app; [reflexivity| |now left].
  apply clean_app;
    [apply closable_join, closable_quoted_all, Hf| |
     left; apply closable_join, closable_quoted_all, Hf].
  apply clean_app; [reflexivity| |now left].
  apply clean_app;
    [apply closable_join, closable_repeat, Hk|reflexivity|
     left; apply closable_join, closable_repeat, Hk].
Qed.







End StringFacts.

(** ** [get_insert_query] *)

Section InsertQuery.

Variables (table : string) (fields : list string).

Lemma dialect_of_embedded (language : string) :
  dialect_of language = Some embedded <-> Str.lower language = "sqlite".
Proof.
  unfold dialect_of.
  destruct (String.eqb_spec (Str.lower language) "sqlite") as [E|E].
  - tauto.
  - destruct (String.eqb_spec (Str.lower language) "postgresql");
      split; congruence.
Qed.

Lemma dialect_of_client_server (language : string) :
  dialect_of language = Some client_server <-> Str.lower language = "postgresql".
Proof.
  unfold dialect_of.
  destruct (String.eqb_spec (Str.lower language) "sqlite") as [E|E].
  - rewrite E. split; discriminate.
  - destruct (String.eqb_spec (Str.lower language) "postgresql");
      split; congruence.
Qed.

Lemma dialect_of_name (language : string) (d : dialect) :
  dialect_of language = Some d <-> Str.lower language = dialect_name d.
Proof.
  destruct d; [apply dialect_of_embedded | apply dialect_of_client_server].
Qed.

Lemma dialect_of_none (language : string) :
  dialect_of language = None
  <-> Str.lower language <> "sqlite" /\ Str.lower language <> "postgresql".
Proof.
  unfold dialect_of.
  destruct (String.eqb_spec (Str.lower language) "sqlite") as [E|E];
    [split; [discriminate | tauto]|].
  destruct (String.eqb_spec (Str.lower language) "postgresql") as [E'|E'];
    [split; [discriminate | tauto]|].
  tauto.
Qed.

Lemma insert_statement_plain (tok : string) :
  insert_statement table fields tok = plain_statement table fields tok.
Proof.
  unfold insert_statement, plain_statement. now rewrite map_const_repeat.
Qed.

Lemma built_query_unrecognized (language : string)
    (on_conflict_fields : option (list string)) (ignore_on_conflict : bool) :
  dialect_of language = None ->
  built_query table fields language on_conflict_fields ignore_on_conflict
  = Raise AssertionError.
Proof.
  intros H. apply dialect_of_none in H as [H1 H2].
  unfold built_query. cbn [languages dict_get].
  destruct (String.eqb_spec "sqlite" (Str.lower language)); [congruence|].
  destruct (String.eqb_spec "postgresql" (Str.lower language)); [congruence|].
  reflexivity.
Qed.

Lemma built_query_plain (language : string) (d : dialect)
    (on_conflict_fields : option (list string)) (ignore_on_conflict : bool) :
  dialect_of language = Some d ->
  on_conflict_fields = None \/ on_conflict_fields = Some [] ->
  built_query table fields language on_conflict_fields ignore_on_conflict
  = Ok (plain_statement table fields (placeholder_token d)).
Proof.
  intros H Hc. apply dialect_of_name in H.
  unfold built_query. rewrite H, <- insert_statement_plain.
  destruct d, Hc as [-> | ->]; reflexivity.
Qed.

Lemma placeholder_upsert (conflict_fields : list string) :
  "ON CONFLICT (" ++ Str.join ", " (map quoted conflict_fields)
    ++ ") DO UPDATE SET "
    ++ on_conflict_placeholder (on_conflict_update_fields fields conflict_fields)
  = upsert_clause conflict_fields (update_fields fields conflict_fields).
Proof.
  unfold on_conflict_placeholder, on_conflict_update_fields, upsert_clause.
  fold (update_fields fields conflict_fields).
  rewrite map_map. reflexivity.
Qed.

Lemma built_query_conflict (language : string) (d : dialect)
    (conflict_fields : list string) (ignore_on_conflict : bool) :
  dialect_of language = Some d ->
  conflict_fields <> [] ->
  built_query table fields language (Some conflict_fields) ignore_on_conflict
  = Ok (conflict_statement d table fields conflict_fields ignore_on_conflict).
Proof.
  intros H Hc. apply dialect_of_name in H.
  destruct conflict_fields as [|c cs]; [congruence|].
  unfold built_query, conflict_statement. rewrite H.
  destruct d; cbn [dialect_name languages dict_get String.eqb Ascii.eqb Bool.eqb placeholder_token];
    rewrite insert_statement_plain;
    destruct (nothing_to_update fields (c :: cs) ignore_on_conflict);
    try reflexivity.
  - now rewrite placeholder_upsert.
  - unfold do_nothing_clause. rewrite !append_assoc. reflexivity.
  - rewrite <- placeholder_upsert, !append_assoc. reflexivity.
Qed.

Lemma built_query_lower (language : string)
    (on_conflict_fields : option (list string)) (ignore_on_conflict : bool) :
  built_query table fields language on_conflict_fields ignore_on_conflict
  = built_query table fields (Str.lower language) on_conflict_fields
      ignore_on_conflict.
Proof. unfold built_query. now rewrite lower_idempotent. Qed.

Lemma built_query_returns (language : string) (d : dialect)
    (on_conflict_fields : option (list string)) (ignore_on_conflict : bool) :
  dialect_of language = Some d ->
  exists q,
    built_query table fields language on_conflict_fields ignore_on_conflict = Ok q.
Proof.
  intros H. destruct on_conflict_fields as [[|c cs]|].
  - eexists. apply (built_query_plain _ d); auto.
  - eexists. apply (built_query_conflict _ d); [exact H | discriminate].
  - eexists. apply (built_query_plain _ d); auto.
Qed.


Lemma insert_or_ignore_prefix :
  Str.startswith
    (validate_query
       (Str.replace "INSERT" "INSERT OR IGNORE" (plain_statement table fields "?")))
    "INSERT OR IGNORE INTO ".
Proof.
  exists (validate_query
            (Str.replace "INSERT" "INSERT OR IGNORE"
               (table ++ " (" ++ Str.join ", " (map quoted fields)
                  ++ ") VALUES ("
                  ++ Str.join ", " (repeat "?" (List.length fields)) ++ ")"))).
  reflexivity.
Qed.

Lemma closable_token (d : dialect) : closable (placeholder_token d).
Proof. destruct d; now split. Qed.



End InsertQuery.



(** C3. Without conflict fields ([None] or an empty list) and with a
    recognized dialect, [get_insert_query] returns the patched plain insert:
    [INSERT INTO <table> (<quoted fields, in order>) VALUES (<one token per
    field>)], the token being [?] for the embedded dialect and [%s] for the
    client-server one; on names free of [,)] the statement is returned
    exactly so. *)
Theorem get_insert_query_plain
    (table : string) (fields : list string) (language : string) (d : dialect)
    (on_conflict_fields : option (list string)) (ignore_on_conflict : bool) :
  dialect_of language = Some d ->
  on_conflict_fields = None \/ on_conflict_fields = Some [] ->
  get_insert_query table fields language on_conflict_fields ignore_on_conflict
  = Ok (validate_query (plain_statement table fields (placeholder_token d)))
  /\ (clean table -> Forall clean fields ->
      get_insert_query table fields language on_conflict_fields ignore_on_conflict
      = Ok ("INSERT INTO " ++ table ++ " (" ++ Str.join ", " (map quoted fields)
              ++ ") VALUES ("
              ++ Str.join ", " (repeat (placeholder_token d) (List.length fields)) ++ ")")).
Proof.
  intros Hd Hc.
  assert (E : get_insert_query table fields language on_conflict_fields
                ignore_on_conflict
              = Ok (validate_query (plain_statement table fields (placeholder_token d)))).
  { unfold get_insert_query. now rewrite (built_query_plain _ _ _ d). }
  split; [exact E|]. intros Ht Hf. rewrite E. f_equal.
  apply validate_query_clean, clean_plain_statement; auto using closable_token.
Qed.

Lemma get_insert_query_plain_witness :
  get_insert_query "t" ["a"; "b"] "sqlite" None false
  = Ok ("INSERT INTO t (" ++ Str.dq ++ "a" ++ Str.dq ++ ", " ++ Str.dq ++ "b"
          ++ Str.dq ++ ") VALUES (?, ?)")
  /\ get_insert_query "t" ["a"; "b"] "postgresql" None false
     = Ok ("INSERT INTO t (" ++ Str.dq ++ "a" ++ Str.dq ++ ", " ++ Str.dq ++ "b"
             ++ Str.dq ++ ") VALUES (%s, %s)").
Proof.
  split.
  - apply (get_insert_query_plain "t" ["a"; "b"] "sqlite" embedded None false);
      [reflexivity | now left | reflexivity | repeat constructor].
  - apply (get_insert_query_plain "t" ["a"; "b"] "postgresql" client_server None false);
      [reflexivity | now left | reflexivity | repeat constructor].
Defined.

(** C4. A dialect whose lowercase form is neither [sqlite] nor
    [postgresql] fails the assertion of [get_insert_query]: the call raises,
    returns no statement, and (being a pure class method) leaves the world of
    the drivers as it was. *)
Theorem get_insert_query_invalid_dialect
    (table : string) (fields : list string) (language : string)
    (on_conflict_fields : option (list string)) (ignore_on_conflict : bool)
    (s : frame * world) :
  Str.lower language <> "sqlite" ->
  Str.lower language <> "postgresql" ->
  get_insert_query table fields language on_conflict_fields ignore_on_conflict
  = Raise AssertionError
  /\ lift (get_insert_query table fields language on_conflict_fields
             ignore_on_conflict) s
     = (Raise AssertionError, s).
Proof.
  intros H1 H2.
  assert (E : get_insert_query table fields language on_conflict_fields
                ignore_on_conflict = Raise AssertionError).
  { unfold get_insert_query. rewrite built_query_unrecognized; [reflexivity|].
    now apply dialect_of_none. }
  split; [exact E|]. unfold lift. now rewrite E.
Qed.

Lemma get_insert_query_invalid_dialect_witness :
  get_insert_query "t" ["a"; "b"] "MySQL" None false = Raise AssertionError
  /\ lift (get_insert_query "t" ["a"; "b"] "MySQL" None false) (no_locals, new_world)
     = (Raise AssertionError, (no_locals, new_world)).
Proof.
  apply (get_insert_query_invalid_dialect "t" ["a"; "b"] "MySQL" None false);
    discriminate.
Defined.

(** C8, as the code has it. With conflict fields and an unrecognized
    dialect the assertion fails before the conflict handling is reached:
    [get_insert_query] raises [AssertionError] and returns no statement. *)
Theorem get_insert_query_conflict_unrecognized
    (table : string) (fields conflict_fields : list string) (language : string)
    (ignore_on_conflict : bool) :
  conflict_fields <> [] ->
  dialect_of language = None ->
  get_insert_query table fields language (Some conflict_fields) ignore_on_conflict
  = Raise AssertionError
  /\ forall q,
       get_insert_query table fields language (Some conflict_fields)
         ignore_on_conflict <> Ok q.
Proof.
  intros _ Hd.
  assert (E : get_insert_query table fields language (Some conflict_fields)
                ignore_on_conflict = Raise AssertionError).
  { unfold get_insert_query. now rewrite built_query_unrecognized. }
  split; [exact E|]. intros q. rewrite E. discriminate.
Qed.

Lemma get_insert_query_conflict_unrecognized_witness :
  get_insert_query "t" ["a"; "b"] "oracle" (Some ["a"]) true = Raise AssertionError.
Proof.
  apply (get_insert_query_conflict_unrecognized "t" ["a"; "b"] ["a"] "oracle" true);
    [discriminate | reflexivity].
Defined.

(** C8 as stated fails: with conflict fields and the dialect [mysql] no
    plain insert comes back, the call raises. *)
Lemma get_insert_query_conflict_unrecognized_counterexample :
  (forall q, get_insert_query "t" ["a"; "b"] "mysql" (Some ["a"]) false <> Ok q)
  /\ get_insert_query "t" ["a"; "b"] "mysql" (Some ["a"]) false
     = Raise AssertionError.
Proof. split; [discriminate | reflexivity]. Qed.

(** C10. The dialect is matched without regard to case: a language whose
    lowercase form is [sqlite] or [postgresql] is accepted, and the call
    returns the statement the lowercase token gives. *)
Theorem get_insert_query_case_insensitive
    (table : string) (fields : list string) (language : string)
    (on_conflict_fields : option (list string)) (ignore_on_conflict : bool) :
  Str.lower language = "sqlite" \/ Str.lower language = "postgresql" ->
  (exists q,
     get_insert_query table fields language on_conflict_fields ignore_on_conflict
     = Ok q)
  /\ get_insert_query table fields language on_conflict_fields ignore_on_conflict
     = get_insert_query table fields (Str.lower language) on_conflict_fields
         ignore_on_conflict.
Proof.
  intros H. split.
  - assert (Hd : exists d, dialect_of language = Some d).
    { destruct H as [H|H]; [exists embedded | exists client_server];
        now apply dialect_of_name. }
    destruct Hd as [d Hd].
    destruct (built_query_returns table fields language d on_conflict_fields
                ignore_on_conflict Hd) as [q Hq].
    exists (validate_query q). unfold get_insert_query. now rewrite Hq.
  - unfold get_insert_query. now rewrite built_query_lower.
Qed.

Lemma get_insert_query_case_insensitive_witness :
  get_insert_query "t" ["a"; "b"] "SQLite" (Some ["a"]) false
  = get_insert_query "t" ["a"; "b"] "sqlite" (Some ["a"]) false
  /\ get_insert_query "t" ["a"; "b"] "POSTGRESQL" None false
     = get_insert_query "t" ["a"; "b"] "postgresql" None false.
Proof.
  split.
  - apply (get_insert_query_case_insensitive "t" ["a"; "b"] "SQLite" (Some ["a"]) false).
    now left.
  - apply (get_insert_query_case_insensitive "t" ["a"; "b"] "POSTGRESQL" None false).
    now right.
Defined.

(** ** [validate_insert_values] *)

Section Sanitizer.

Lemma comprehension_map {A B C : Type} (f : B -> result C) (g : A -> B)
    (xs : list A) :
  comprehension f (map g xs) = comprehension (fun x => f (g x)) xs.
Proof. induction xs as [|x xs IH]; simpl; [reflexivity | now rewrite IH]. Qed.

(** Walking a list by index over [range(len(l))] is walking the list. *)
Lemma comprehension_range {A B : Type} (f : A -> result B) (d : A) (l : list A) :
  comprehension (fun i => f (nth i l d)) (seq 0 (List.length l))
  = comprehension f l.
Proof.
  induction l as [|a l IH]; [reflexivity|].
  cbn [List.length seq comprehension nth].
  rewrite <- seq_shift, comprehension_map. cbn [nth]. now rewrite IH.
Qed.

Lemma comprehension_ext {A B : Type} (f g : A -> result B) (xs : list A) :
  (forall x, f x = g x) -> comprehension f xs = comprehension g xs.
Proof.
  intros H. induction xs as [|x xs IH]; simpl; [reflexivity|].
  now rewrite H, IH.
Qed.

Lemma entry_sanitized (v : pyval) :
  (nan <- is_numeric_nan v ;; Ok (if nan then PyNone else v))
  = if convertible v then Ok (sanitized v) else Raise OverflowError.
Proof.
  destruct v; try reflexivity.
  unfold is_numeric_nan, isnan, convertible, sanitized. simpl.
  now destruct (fits_float n).
Qed.

Lemma row_sanitized (row : list pyval) :
  comprehension
    (fun j => nan <- is_numeric_nan (nth j row PyNone) ;;
              Ok (if nan then PyNone else nth j row PyNone))
    (seq 0 (List.length row))
  = if forallb convertible row then Ok (map sanitized row)
    else Raise OverflowError.
Proof.
  rewrite (comprehension_range
             (fun v => nan <- is_numeric_nan v ;; Ok (if nan then PyNone else v))).
  induction row as [|v row IH]; [reflexivity|].
  cbn [comprehension forallb map]. rewrite entry_sanitized, IH.
  destruct (convertible v); [|reflexivity].
  now destruct (forallb convertible row).
Qed.

(** What [validate_insert_values] does on every input. *)
Lemma validate_insert_values_eq (values : list (list pyval)) :
  validate_insert_values values
  = if forallb (forallb convertible) values
    then Ok (map (map sanitized) values)
    else Raise OverflowError.
Proof.
  unfold validate_insert_values, item.
  rewrite (comprehension_range
             (fun row =>
                comprehension
                  (fun j => nan <- is_numeric_nan (nth j row PyNone) ;;
                            Ok (if nan then PyNone else nth j row PyNone))
                  (seq 0 (List.length row)))).
  induction values as [|row values IH]; [reflexivity|].
  cbn [comprehension forallb map]. rewrite row_sanitized, IH.
  destruct (forallb convertible row); [|reflexivity].
  now destruct (forallb (forallb convertible) values).
Qed.

Lemma item_sanitized (values : list (list pyval)) (i j : nat) :
  item (map (map sanitized) values) i j = sanitized (item values i j).
Proof.
  unfold item.
  change (@nil pyval) with (map sanitized []).
  rewrite map_nth.
  change PyNone with (sanitized PyNone) at 1.
  now rewrite map_nth.
Qed.

Lemma forallb_false {A : Type} (f : A -> bool) (l : list A) :
  forallb f l = false -> exists x, In x l /\ f x = false.
Proof.
  induction l as [|a l IH]; [discriminate|]. cbn [forallb].
  destruct (f a) eqn:E.
  - intros H. destruct (IH H) as [x [Hx Hf]]. exists x. split; [now right | exact Hf].
  - intros _. exists a. split; [now left | exact E].
Qed.

Lemma not_convertible (v : pyval) :
  convertible v = false -> exists n, v = PyInt n /\ (float_overflow <= Z.abs n)%Z.
Proof.
  destruct v; try discriminate.
  unfold convertible, fits_float. intros H. exists n. split; [reflexivity|].
  now apply Z.ltb_ge.
Qed.

Lemma all_convertible (values : list (list pyval)) :
  (forall row n, In row values -> In (PyInt n) row -> (Z.abs n < float_overflow)%Z) ->
  forallb (forallb convertible) values = true.
Proof.
  intros H. apply forallb_forall. intros row Hrow.
  apply forallb_forall. intros v Hv.
  destruct v; try reflexivity.
  apply Z.ltb_lt. eapply H; eauto.
Qed.

(** An entry that is neither [int] nor [float] is not handed to [isnan]:
    the check does not raise on it, and the entry stays. *)
Lemma other_entry_kept (v : pyval) :
  is_int_or_float v = false -> is_numeric_nan v = Ok false /\ sanitized v = v.
Proof. destruct v; try discriminate; now split. Qed.

(** Where every [int] is within the range of a double and no NaN is held
    as a [numpy.float32], every NaN entry comes back as [None] and every
    other entry as it was. *)
Lemma validate_insert_values_every_nan (values : list (list pyval)) :
  (forall row n, In row values -> In (PyInt n) row ->
                 (Z.abs n < float_overflow)%Z) ->
  (forall row, In row values -> ~ In (NpFloat32 S754_nan) row) ->
  validate_insert_values values
  = Ok (map (map (fun v => if nan_entry v then PyNone else v)) values).
Proof.
  intros Hint H32.
  rewrite validate_insert_values_eq, all_convertible by exact Hint.
  f_equal. apply map_ext_in. intros row Hrow.
  apply map_ext_in. intros v Hv. unfold sanitized.
  destruct v; try reflexivity.
  destruct x; try reflexivity.
  exfalso. eapply H32; eauto.
Qed.

End Sanitizer.

(** C2, as the code has it. When every [int] entry is within the range of a
    double, [validate_insert_values] returns the rows with every NaN that is
    an instance of [float] (a Python [float] or a [numpy.float64]) replaced
    by [None] and every other entry as it was; an entry that is an instance
    of neither [int] nor [float] is not passed to [isnan] at all, so the
    check does not raise on it and it comes back unchanged. *)
Theorem validate_insert_values_sanitizes (values : list (list pyval)) :
  (forall row n, In row values -> In (PyInt n) row -> (Z.abs n < float_overflow)%Z) ->
  validate_insert_values values = Ok (map (map sanitized) values)
  /\ (forall v, sanitized v = PyNone
                <-> v = PyNone \/ v = PyFloat S754_nan \/ v = NpFloat64 S754_nan)
  /\ (forall v, sanitized v <> PyNone -> sanitized v = v)
  /\ (forall v, is_int_or_float v = false ->
                is_numeric_nan v = Ok false /\ sanitized v = v).
Proof.
  intros H. split; [|split; [|split]].
  - rewrite validate_insert_values_eq, all_convertible; [reflexivity | exact H].
  - intros v. split.
    + destruct v; try discriminate; auto;
        destruct x; try discriminate; auto.
    + intros [-> | [-> | ->]]; reflexivity.
  - intros v. unfold sanitized. destruct (float_nan v); congruence.
  - apply other_entry_kept.
Qed.

Lemma validate_insert_values_sanitizes_witness :
  validate_insert_values
    [[PyInt 3; PyFloat S754_nan; PyStr "x"]; [];
     [PyDate "2020-01-01"; PyBool true; NpFloat64 S754_nan; NpInt64 7]]
  = Ok [[PyInt 3; PyNone; PyStr "x"]; [];
        [PyDate "2020-01-01"; PyBool true; PyNone; NpInt64 7]].
Proof.
  apply (validate_insert_values_sanitizes
           [[PyInt 3; PyFloat S754_nan; PyStr "x"]; [];
            [PyDate "2020-01-01"; PyBool true; NpFloat64 S754_nan; NpInt64 7]]).
  intros row n Hrow Hn. simpl in Hrow.
  destruct Hrow as [<- | [<- | [<- | []]]]; simpl in Hn.
  - destruct Hn as [E | [E | [E | []]]]; try discriminate.
    injection E as <-. reflexivity.
  - destruct Hn.
  - destruct Hn as [E | [E | [E | [E | []]]]]; discriminate.
Defined.

(** C2 as stated fails twice.  A NaN held as a [numpy.float32] is numeric
    but no instance of [float]: it comes back as it is, next to a [float]
    NaN that is replaced.  And an [int] beyond the range of a double makes
    [isnan] raise [OverflowError], so that no rows are returned. *)
Lemma validate_insert_values_sanitizes_counterexample :
  (nan_entry (NpFloat32 S754_nan) = true
   /\ validate_insert_values [[NpFloat32 S754_nan; PyFloat S754_nan; PyStr "x"]]
      = Ok [[NpFloat32 S754_nan; PyNone; PyStr "x"]])
  /\ validate_insert_values [[PyInt (2 ^ 1024)]] = Raise OverflowError.
Proof.
  split; [split; reflexivity|]. vm_compute. reflexivity.
Qed.

(** C9. [validate_insert_values] keeps the shape of its input: what it
    returns has as many rows as the input, each row as long as the row it
    comes from, and every entry at the position of the entry it was made
    from.  The only way not to return is the [OverflowError] of an [int]
    entry beyond the range of a double. *)
Theorem validate_insert_values_shape (values : list (list pyval)) :
  match validate_insert_values values with
  | Ok out =>
      List.length out = List.length values
      /\ (forall i, List.length (nth i out []) = List.length (nth i values []))
      /\ (forall i j, item out i j = sanitized (item values i j))
  | Raise e =>
      e = OverflowError
      /\ exists row n, In row values /\ In (PyInt n) row
                       /\ (float_overflow <= Z.abs n)%Z
  end.
Proof.
  rewrite validate_insert_values_eq.
  destruct (forallb (forallb convertible) values) eqn:E.
  - split; [apply length_map|]. split.
    + intros i. change (@nil pyval) with (map sanitized []) at 1.
      now rewrite map_nth, length_map.
    + apply item_sanitized.
  - split; [reflexivity|].
    apply forallb_false in E as [row [Hrow E]].
    apply forallb_false in E as [v [Hv E]].
    apply not_convertible in E as [n [-> Hn]].
    now exists row, n.
Qed.

(** ** [read_table] and [insert_file] *)

Section Files.

Variable driver : double.

Lemma split_from_no_sep (sep : ascii) (cur s : string) :
  has_char sep s = false -> Str.split_from sep cur s = [cur ++ s].
Proof.
  revert cur. induction s as [|c s IH]; intros cur H.
  - now rewrite append_nil_r.
  - cbn [has_char] in H. apply orb_false_elim in H as [Hc Hs].
    cbn [Str.split_from]. rewrite Hc, IH by exact Hs.
    now rewrite append_assoc.
Qed.

Lemma split_from_not_nil (sep : ascii) (cur s : string) :
  Str.split_from sep cur s <> [].
Proof.
  revert cur. induction s as [|c s IH]; intros cur; cbn [Str.split_from].
  - discriminate.
  - destruct (Ascii.eqb c sep); [discriminate | apply IH].
Qed.

Lemma last_cons_not_nil {A : Type} (x d : A) (l : list A) :
  l <> [] -> last (x :: l) d = last l d.
Proof. destruct l; [congruence | reflexivity]. Qed.

Lemma last_split_from (sep : ascii) (cur stem ext : string) :
  has_char sep ext = false ->
  last (Str.split_from sep cur (stem ++ String sep ext)) EmptyString = ext.
Proof.
  intros H. revert cur. induction stem as [|c stem IH]; intros cur.
  - cbn [append Str.split_from]. rewrite Ascii.eqb_refl.
    rewrite last_cons_not_nil by apply split_from_not_nil.
    now rewrite split_from_no_sep.
  - change (String c stem ++ String sep ext)
      with (String c (stem ++ String sep ext)).
    cbn [Str.split_from]. destruct (Ascii.eqb c sep).
    + rewrite last_cons_not_nil by apply split_from_not_nil. apply IH.
    + apply IH.
Qed.

(** The extension is what follows the last dot, and the whole path when
    there is none. *)
Lemma extension_of_suffix (stem ext : string) :
  has_char "." ext = false -> extension_of (stem ++ "." ++ ext) = ext.
Proof. intros H. unfold extension_of, Str.split. now apply last_split_from. Qed.

Lemma extension_of_no_dot (filepath : string) :
  has_char "." filepath = false -> extension_of filepath = filepath.
Proof.
  intros H. unfold extension_of, Str.split. now rewrite split_from_no_sep.
Qed.

Lemma reader_none (extension : string) :
  extension <> "csv" -> extension <> "pkl" -> extension <> "parquet" ->
  dict_get reader extension = None.
Proof.
  intros H1 H2 H3. unfold reader. cbn [dict_get].
  destruct (String.eqb_spec "csv" extension); [congruence|].
  destruct (String.eqb_spec "pkl" extension); [congruence|].
  destruct (String.eqb_spec "parquet" extension); [congruence|].
  reflexivity.
Qed.

Lemma read_table_unsupported (filepath : string) (w : world) :
  dict_get reader (extension_of filepath) = None ->
  method (read_table driver filepath) w = (Raise TypeError, w).
Proof. intros H. unfold method, read_table. now rewrite H. Qed.

End Files.

(** C7. A path whose last dot-separated piece is none of [csv], [pkl] and
    [parquet] makes [read_table] raise [TypeError] with no call into any
    driver, and [insert_file] on it raises the same error with the world
    untouched: nothing is read, no session is opened, nothing is inserted.
    The piece tested is the text behind the last dot. *)
Theorem insert_file_unsupported_extension
    (driver : double) (self : database) (filepath table : string)
    (kwargs : file_kwargs) (w : world) :
  extension_of filepath <> "csv" ->
  extension_of filepath <> "pkl" ->
  extension_of filepath <> "parquet" ->
  method (read_table driver filepath) w = (Raise TypeError, w)
  /\ insert_file driver self filepath table kwargs w = (Raise TypeError, w)
  /\ (forall stem ext, has_char "." ext = false ->
                       extension_of (stem ++ "." ++ ext) = ext).
Proof.
  intros H1 H2 H3.
  assert (E : method (read_table driver filepath) w = (Raise TypeError, w)).
  { apply read_table_unsupported, reader_none; assumption. }
  split; [exact E|]. split.
  - unfold insert_file. now rewrite E.
  - apply extension_of_suffix.
Qed.

Lemma insert_file_unsupported_extension_witness :
  insert_file quiet (SQLiteDatabase "db.sqlite") "data/archive.csv.xlsx" "t"
    {| kw_query := None; kw_fields := None; kw_on_conflict_fields := None;
       kw_ignore_on_conflict := None |} new_world
  = (Raise TypeError, new_world).
Proof.
  apply (insert_file_unsupported_extension quiet (SQLiteDatabase "db.sqlite")
           "data/archive.csv.xlsx" "t");
    discriminate.
Defined.

(** ** The adapters and their sessions *)

Section Adapters.

Variable driver : double.

Ltac run :=
  unfold method, try_finally, get_connection, connection_cursor, connection_execute,
    cursor_fetchall, read_sql, read_file, mbind, driver_call, fresh, open_session,
    open_cursor, store_connection, store_cursor, load_connection, load_cursor,
    connection_close, cursor_close, ret, throw, lift, logged;
  cbn -[release validate_query get_insert_query validate_insert_values].

Ltac raise_or_not :=
  match goal with
  | |- context [raises driver ?l ?c] => destruct (raises driver l c); run
  end.

Lemma incl_release (h : nat) (l : list nat) : incl (release h (h :: l)) l.
Proof.
  unfold release. cbn [filter]. rewrite Nat.eqb_refl. cbn [negb].
  intros x Hx. apply filter_In in Hx. tauto.
Qed.



(** The loop of [query] leaves the frame and the open sessions alone. *)
Lemma query_loop_keeps (c : nat) (qs : list string)
    (responses : list (list (list pyval))) (f : frame) (w : world) :
  fst (snd (query_loop driver c qs responses (f, w))) = f
  /\ sessions (snd (snd (query_loop driver c qs responses (f, w)))) = sessions w.
Proof.
  revert responses w. induction qs as [|q qs IH]; intros responses w.
  - now split.
  - cbn [query_loop]. run.
    raise_or_not; [now split|].
    raise_or_not; [now split|].
    raise_or_not; [now split|].
    match goal with
    | |- context [query_loop driver c qs ?r (f, ?w')] =>
        destruct (IH r w') as [IH1 IH2]
    end.
    split; [exact IH1 | exact IH2].
Qed.

Lemma query_releases (self : database) (text : string) (w : world) :
  sessions_released w (snd (query driver self text w)).
Proof.
  unfold sessions_released, query. run.
  raise_or_not; [apply incl_refl|].
  match goal with
  | |- context [query_loop driver ?c ?qs ?r (?f, ?w')] =>
      destruct (query_loop_keeps c qs r f w') as [Hf Hs];
      destruct (query_loop driver c qs r (f, w')) as [res [f' w'']]
  end.
  cbn [fst snd] in Hf, Hs. subst f'. run. rewrite Hs. cbn [sessions].
  destruct res; apply incl_release.
Qed.

Lemma sqlite_insert_releases (filepath : string) (values : list (list pyval))
    (text : option string) (kwargs : insert_kwargs) (w : world) :
  sessions_released w
    (snd (insert driver (SQLiteDatabase filepath) values text kwargs w)).
Proof.
  unfold sessions_released, insert. run.
  destruct (validate_insert_values values); run; [|apply incl_refl].
  destruct (statement_for _ _ _); run; [|apply incl_refl].
  raise_or_not; [apply incl_refl|].
  raise_or_not; [apply incl_release|].
  raise_or_not; apply incl_release.
Qed.



(** When [connection.cursor()] raises, the [finally] block stops at the
    unbound [cursor] and the session stays open. *)
Lemma postgresql_insert_leaks (dbname user password : string)
    (values : list (list pyval)) (text : option string)
    (kwargs : insert_kwargs) (w : world) (e : exn)
    (rows : list (list pyval)) (q : string) :
  let self := PostgreSQLDatabase dbname user password in
  validate_insert_values values = Ok rows ->
  statement_for self text kwargs = Ok q ->
  raises driver (log w) (Connect self) = None ->
  raises driver (Connect self :: log w) (Cursor (List.length (log w))) = Some e ->
  insert driver self values text kwargs w
  = (Raise UnboundLocalError,
     {| log := Cursor (List.length (log w)) :: Connect self :: log w;
        sessions := List.length (log w) :: sessions w;
        cursors := cursors w |}).
Proof.
  intros self Hv Hq Hc He. unfold insert. run.
  rewrite Hv. run. fold self. rewrite Hq. run. rewrite Hc. run.
  fold self. rewrite He. reflexivity.
Qed.

Lemma select_query_patched (self : database) (text : string) (w : world)
    (q : string) (c : nat) :
  In (ReadSql q c) (log (snd (select_query driver self text w))) ->
  In (ReadSql q c) (log w) \/ q = validate_query text.
Proof.
  unfold select_query. run.
  raise_or_not; [intros [H|H]; [discriminate | now left]|].
  raise_or_not;
    (intros [H|[H|[H|H]]]; try discriminate; [right; congruence | now left]).
Qed.

Lemma get_schema_patched (filepath : string) (w : world) (q : string) (c : nat) :
  In (ReadSql q c) (log (snd (get_schema driver filepath w))) ->
  In (ReadSql q c) (log w)
  \/ q = validate_query
           "SELECT * FROM sqlite_master WHERE type IN ('table', 'view')".
Proof.
  unfold get_schema. run.
  raise_or_not; [intros [H|H]; [discriminate | now left]|].
  raise_or_not;
    [intros [H|[H|[H|H]]]; try discriminate; [right; congruence | now left]|].
  destruct (column _ _); run;
    (intros [H|[H|[H|H]]]; try discriminate; [right; congruence | now left]).
Qed.

Lemma query_loop_log (c : nat) (qs : list string)
    (responses : list (list (list pyval))) (f : frame) (w : world)
    (q : string) (c' : nat) :
  In (Execute q c') (log (snd (snd (query_loop driver c qs responses (f, w))))) ->
  In (Execute q c') (log w) \/ In q qs.
Proof.
  revert responses w. induction qs as [|q0 qs IH]; intros responses w.
  - now left.
  - cbn [query_loop]. run.
    raise_or_not;
      [intros [H|H]; [right; left; congruence | now left]|].
    raise_or_not;
      [intros [H|[H|H]]; try discriminate; [right; left; congruence | now left]|].
    raise_or_not;
      [intros [H|[H|[H|H]]]; try discriminate;
       [right; left; congruence | now left]|].
    intros H. apply IH in H. cbn [log] in H.
    destruct H as [[H|[H|[H|H]]]|H]; try discriminate.
    + right; left; congruence.
    + now left.
    + right; now right.
Qed.

Lemma query_patched (self : database) (text : string) (w : world)
    (q : string) (c : nat) :
  In (Execute q c) (log (snd (query driver self text w))) ->
  In (Execute q c) (log w) \/ In q (Str.split ";" (validate_query text)).
Proof.
  unfold query. run.
  raise_or_not; [intros [H|H]; [discriminate | now left]|].
  match goal with
  | |- context [query_loop driver ?c0 ?qs ?r (?f, ?w')] =>
      pose proof (query_loop_log c0 qs r f w' q c) as Hlog;
      destruct (query_loop_keeps c0 qs r f w') as [Hf _];
      destruct (query_loop driver c0 qs r (f, w')) as [res [f' w'']]
  end.
  cbn [fst snd] in Hf, Hlog. subst f'. run.
  assert (Hin : In (Execute q c) (log w'') ->
                In (Execute q c) (log w)
                \/ In q (Str.split ";" (validate_query text))).
  { intros H. apply Hlog in H. cbn [log] in H.
    destruct H as [[H|H]|H]; [discriminate | now left | now right]. }
  destruct res; cbn [snd log]; (intros [H|H]; [discriminate | now apply Hin]).
Qed.

End Adapters.

(** C5, as the code has it. [validate_query] takes out exactly the commas
    that stand directly before a closing parenthesis and changes no other
    character; what is left of [,)] in the result is what the text had of
    [,,)], so a text without [,,)] comes out free of [,)].  The patch is the
    last step of [get_insert_query], and the text [select_query] and [query]
    hand to the driver is the patched one. *)
Theorem validate_query_patch (text : string) :
  validate_query text = drop_commas text
  /\ comma_erasure text (validate_query text)
  /\ Str.contains ",)" (validate_query text) = Str.contains ",,)" text
  /\ (Str.contains ",,)" text = false -> clean (validate_query text))
  /\ (forall table fields language on_conflict_fields ignore_on_conflict,
        get_insert_query table fields language on_conflict_fields ignore_on_conflict
        = (query <- built_query table fields language on_conflict_fields
                      ignore_on_conflict ;;
           Ok (validate_query query)))
  /\ (forall driver self w q c,
        In (ReadSql q c) (log (snd (select_query driver self text w))) ->
        In (ReadSql q c) (log w) \/ q = validate_query text)
  /\ (forall driver self w q c,
        In (Execute q c) (log (snd (query driver self text w))) ->
        In (Execute q c) (log w) \/ In q (Str.split ";" (validate_query text))).
Proof.
  split; [apply validate_query_drop_commas|].
  split; [rewrite validate_query_drop_commas; apply drop_commas_erasure|].
  split; [apply contains_validate_query|].
  split; [intros H; unfold clean; now rewrite contains_validate_query|].
  split; [reflexivity|].
  split; intros driver self w q c.
  - apply select_query_patched.
  - apply query_patched.
Qed.

Lemma validate_query_patch_witness :
  clean (validate_query "INSERT INTO t VALUES (1,), (2,)")
  /\ (In (ReadSql "SELECT a FROM t WHERE b IN (1)" 0) []
      \/ "SELECT a FROM t WHERE b IN (1)"
         = validate_query "SELECT a FROM t WHERE b IN (1,)").
Proof.
  split.
  - apply (validate_query_patch "INSERT INTO t VALUES (1,), (2,)"). reflexivity.
  - destruct (validate_query_patch "SELECT a FROM t WHERE b IN (1,)")
      as (_ & _ & _ & _ & _ & Hselect & _).
    apply (Hselect quiet (SQLiteDatabase "db.sqlite") new_world).
    right. left. reflexivity.
Defined.

(** C5 as stated fails: the patch of [,,)] is [,)], so the result still
    holds [,)]; and a statement handed to [insert] by its caller reaches the
    driver unpatched. *)
Lemma validate_query_patch_counterexample :
  validate_query ",,)" = ",)"
  /\ Str.contains ",)" (validate_query ",,)") = true
  /\ In (ExecuteMany "INSERT INTO t VALUES (?,)" [] 0)
        (log (snd (insert quiet (SQLiteDatabase "db.sqlite") []
                     (Some "INSERT INTO t VALUES (?,)")
                     {| table_name := "t"; fields := ["a"];
                        on_conflict_fields := None;
                        ignore_on_conflict := false |}
                     new_world))).
Proof.
  split; [reflexivity|]. split; [reflexivity|].
  do 2 right. left. reflexivity.
Qed.

(** C6, at the input where the session is not released.  On a connection
    whose [cursor()] raises, [PostgreSQLDatabase.insert] reaches its
    [finally] block with [cursor] unbound: [cursor.close()] raises
    [UnboundLocalError], [connection.close()] is never called, and the
    session opened by the call is still open when it ends. *)
Theorem postgresql_insert_session_leak :
  let call :=
    insert cursor_fails (PostgreSQLDatabase "db" "user" "secret") [[PyInt 1]] None
      {| table_name := "t"; fields := ["a"]; on_conflict_fields := None;
         ignore_on_conflict := false |}
      new_world in
  fst call = Raise UnboundLocalError
  /\ log (snd call)
     = [Cursor 0; Connect (PostgreSQLDatabase "db" "user" "secret")]
  /\ sessions (snd call) = [0]
  /\ ~ sessions_released new_world (snd call).
Proof.
  cbv zeta. split; [reflexivity|]. split; [reflexivity|]. split; [reflexivity|].
  intros H. exact (H 0 (or_introl eq_refl)).
Qed.

(** ** Splitting and patching a script *)

Section Scripts.

Lemma split_from_on_head (sep : ascii) (cur s : string) :
  Str.split_from sep cur s = on_head (append cur) (Str.split sep s).
Proof.
  unfold Str.split. revert cur. induction s as [|c s IH]; intros cur.
  - cbn. now rewrite append_nil_r.
  - cbn [Str.split_from append]. destruct (Ascii.eqb c sep).
    + cbn. now rewrite append_nil_r.
    + rewrite (IH (cur ++ String c EmptyString)), (IH (String c EmptyString)).
      destruct (Str.split_from sep EmptyString s) as [|p ps]; [reflexivity|].
      cbn [on_head]. now rewrite append_assoc.
Qed.

(** [split], one character at a time. *)
Lemma split_cons (sep c : ascii) (s : string) :
  Str.split sep (String c s) =
  if Ascii.eqb c sep then EmptyString :: Str.split sep s
  else on_head (String c) (Str.split sep s).
Proof.
  unfold Str.split at 1. cbn [Str.split_from].
  destruct (Ascii.eqb c sep); [reflexivity|].
  now rewrite split_from_on_head.
Qed.

Lemma split_not_nil (sep : ascii) (s : string) : Str.split sep s <> [].
Proof. apply split_from_not_nil. Qed.

Lemma join_split (sep : ascii) (s : string) :
  Str.join (String sep EmptyString) (Str.split sep s) = s.
Proof.
  unfold Str.join. induction s as [|c s IH]; [reflexivity|].
  rewrite split_cons. pose proof (split_not_nil sep s) as Hn.
  destruct (Ascii.eqb_spec c sep) as [->|Hc].
  - destruct (Str.split sep s) as [|p ps]; [congruence|].
    change (String.concat (String sep EmptyString) (EmptyString :: p :: ps))
      with (String sep (String.concat (String sep EmptyString) (p :: ps))).
    now rewrite IH.
  - destruct (Str.split sep s) as [|p ps]; [congruence|].
    cbn [on_head]. rewrite <- IH. now destruct ps.
Qed.

Lemma split_pieces_no_sep (sep : ascii) (s : string) :
  Forall (fun piece => has_char sep piece = false) (Str.split sep s).
Proof.
  induction s as [|c s IH]; [now repeat constructor|].
  rewrite split_cons. destruct (Ascii.eqb c sep) eqn:E.
  - now constructor.
  - destruct (Str.split sep s) as [|p ps]; [constructor|].
    inversion IH; subst. constructor; [|assumption].
    cbn [has_char]. rewrite E. assumption.
Qed.

Lemma length_split (sep : ascii) (s : string) :
  List.length (Str.split sep s) = S (count_char sep s).
Proof.
  induction s as [|c s IH]; [reflexivity|].
  rewrite split_cons. cbn [count_char]. destruct (Ascii.eqb c sep).
  - cbn [List.length Nat.add]. now rewrite IH.
  - cbn [Nat.add]. rewrite <- IH. now destruct (Str.split sep s).
Qed.

Lemma starts_paren_first_piece (sep : ascii) (s : string) :
  Ascii.eqb ")" sep = false ->
  starts_paren (hd EmptyString (Str.split sep s)) = starts_paren s.
Proof.
  intros Hsep. destruct s as [|c s]; [reflexivity|].
  rewrite split_cons. destruct (Ascii.eqb_spec c sep) as [->|Hc].
  - cbn. now rewrite Ascii.eqb_sym.
  - pose proof (split_not_nil sep s). now destruct (Str.split sep s).
Qed.

Lemma split_drop_commas_step (sep : ascii) (s : string) :
  Ascii.eqb "," sep = false -> Ascii.eqb ")" sep = false ->
  Str.split sep (drop_commas s) = map drop_commas (Str.split sep s)
  /\ forall c, Str.split sep (drop_commas (String c s))
               = map drop_commas (Str.split sep (String c s)).
Proof.
  intros Hcomma Hparen. induction s as [|a s [IH1 IH2]].
  - split; [reflexivity|]. intros c. rewrite drop_commas_cons.
    cbn [starts_paren]. rewrite andb_false_r, !split_cons.
    destruct (Ascii.eqb c sep) eqn:E; [reflexivity|].
    cbn. now rewrite andb_false_r.
  - split; [apply IH2|]. intros c. rewrite (drop_commas_cons c).
    destruct (is_comma c && starts_paren (String a s)) eqn:E.
    + apply andb_prop in E as [Ec E]. cbn [starts_paren] in E.
      apply Ascii.eqb_eq in E. apply is_comma_true in Ec. subst a c.
      rewrite IH2, (split_cons sep ","), Hcomma.
      rewrite (split_cons sep ")"), Hparen.
      pose proof (split_not_nil sep s) as Hn.
      destruct (Str.split sep s) as [|p ps]; [congruence|]. reflexivity.
    + rewrite (split_cons sep c (String a s)), split_cons.
      destruct (Ascii.eqb c sep) eqn:Hc.
      * now rewrite IH2.
      * rewrite IH2.
        pose proof (starts_paren_first_piece sep (String a s) Hparen) as Hp.
        pose proof (split_not_nil sep (String a s)) as Hn.
        destruct (Str.split sep (String a s)) as [|p ps]; [congruence|].
        cbn [hd] in Hp. cbn [map on_head]. f_equal.
        rewrite drop_commas_cons, Hp, E. reflexivity.
Qed.

Lemma length_drop_commas (s : string) :
  String.length (drop_commas s) + count_comma_paren s = String.length s.
Proof.
  induction s as [|c s IH]; [reflexivity|].
  rewrite drop_commas_cons. cbn [count_comma_paren String.length].
  destruct (is_comma c && starts_paren s); cbn [String.length]; lia.
Qed.

Lemma count_comma_paren_clean (s : string) :
  count_comma_paren s = 0 <-> clean s.
Proof.
  unfold clean. induction s as [|c s IH]; [now split|].
  rewrite contains_cons, prefix_comma_paren. cbn [count_comma_paren].
  destruct (is_comma c && starts_paren s); cbn [orb].
  - split; [lia | discriminate].
  - exact IH.
Qed.

Lemma count_char_validate_query (sep : ascii) (s : string) :
  Ascii.eqb "," sep = false ->
  count_char sep (validate_query s) = count_char sep s.
Proof.
  intros Hsep. rewrite validate_query_drop_commas.
  induction s as [|c s IH]; [reflexivity|].
  rewrite drop_commas_cons. cbn [count_char].
  destruct (is_comma c && starts_paren s) eqn:E; [|cbn [count_char]; now rewrite IH].
  apply andb_prop in E as [E _]. apply is_comma_true in E. subst c.
  rewrite IH, Hsep. reflexivity.
Qed.

End Scripts.

(** X1. The pieces [query] executes are the patched script cut at every
    [;]: joined by [;] they give the script back, none of them holds a
    [;], and there is one piece more than there are [;] in the script, so
    that a script ending in [;] has an empty last piece. *)
Theorem query_pieces (text : string) :
  let pieces := Str.split ";" (validate_query text) in
  Str.join ";" pieces = validate_query text
  /\ Forall (fun piece => has_char ";" piece = false) pieces
  /\ List.length pieces = S (count_char ";" (validate_query text))
  /\ count_char ";" (validate_query text) = count_char ";" text.
Proof.
  cbv zeta. split; [apply join_split|]. split; [apply split_pieces_no_sep|].
  split; [apply length_split|]. now apply count_char_validate_query.
Qed.

(** X2. Patching a script and cutting it at [;] is cutting it and patching
    every piece: the patch never works across two statements. *)
Theorem split_validate_query (text : string) :
  Str.split ";" (validate_query text)
  = map validate_query (Str.split ";" text).
Proof.
  rewrite validate_query_drop_commas.
  rewrite (proj1 (split_drop_commas_step ";" text eq_refl eq_refl)).
  apply map_ext. intros piece. now rewrite validate_query_drop_commas.
Qed.

(** X3. [validate_query] shortens a text by one character for every place
    where [,)] stands in it, and leaves a text as it is exactly when [,)]
    stands nowhere in it. *)
Theorem validate_query_length (text : string) :
  String.length (validate_query text) + count_comma_paren text = String.length text
  /\ (validate_query text = text <-> clean text).
Proof.
  assert (L : String.length (validate_query text) + count_comma_paren text
              = String.length text).
  { rewrite validate_query_drop_commas. apply length_drop_commas. }
  split; [exact L|]. split.
  - intros E. rewrite E in L. apply count_comma_paren_clean. lia.
  - apply validate_query_clean.
Qed.

(** ** What the adapters do, call by call *)

Ltac run :=
  unfold method, try_finally, get_connection, connection_cursor, connection_execute,
    cursor_fetchall, read_sql, read_file, mbind, driver_call, fresh, open_session,
    open_cursor, store_connection, store_cursor, load_connection, load_cursor,
    connection_close, cursor_close, ret, throw, lift, logged;
  cbn -[release validate_query get_insert_query validate_insert_values executed firstn
        Str.join].

Ltac raise_or_not :=
  match goal with
  | |- context [raises ?d ?l ?c] => destruct (raises d l c) eqn:?; run
  end.

Lemma get_insert_query_plain_eq (table : string) (fields : list string)
    (language : string) (d : dialect)
    (on_conflict_fields : option (list string)) (ignore_on_conflict : bool) :
  dialect_of language = Some d ->
  on_conflict_fields = None \/ on_conflict_fields = Some [] ->
  get_insert_query table fields language on_conflict_fields ignore_on_conflict
  = Ok (validate_query (plain_statement table fields (placeholder_token d))).
Proof.
  intros Hd Hc. unfold get_insert_query.
  now rewrite (built_query_plain _ _ _ d).
Qed.

Section Traces.

Variable driver : double.

Lemma statement_for_returns (self : database) (text : option string)
    (kwargs : insert_kwargs) :
  exists q, statement_for self text kwargs = Ok q.
Proof.
  destruct text as [q|]; [now exists q|]. unfold statement_for, get_insert_query.
  set (d := match self with
            | SQLiteDatabase _ => embedded
            | PostgreSQLDatabase _ _ _ => client_server
            end).
  destruct (built_query_returns (table_name kwargs) (fields kwargs)
              (language_of self) d (on_conflict_fields kwargs)
              (ignore_on_conflict kwargs)) as [q Hq].
  - now destruct self.
  - rewrite Hq. now eexists.
Qed.

Lemma query_loop_trace (c : nat) (qs : list string)
    (responses : list (list (list pyval))) (f : frame) (w : world) :
  match fst (query_loop driver c qs responses (f, w)) with
  | Ok rs =>
      executed (log (snd (snd (query_loop driver c qs responses (f, w)))))
      = (executed (log w) ++ qs)%list
      /\ List.length rs = List.length responses + List.length qs
  | Raise e =>
      exists k c0 l,
        k <= List.length qs
        /\ executed (log (snd (snd (query_loop driver c qs responses (f, w)))))
           = (executed (log w) ++ firstn k qs)%list
        /\ log (snd (snd (query_loop driver c qs responses (f, w)))) = c0 :: l
        /\ raises driver l c0 = Some e
  end.
Proof.
  revert responses w. induction qs as [|q qs IH]; intros responses w.
  - cbn. rewrite app_nil_r. split; [reflexivity | lia].
  - cbn [query_loop]. run.
    raise_or_not.
    { exists 1. do 2 eexists. repeat split; [cbn; lia | eassumption]. }
    raise_or_not.
    { exists 1. do 2 eexists. repeat split; [cbn; lia | eassumption]. }
    raise_or_not.
    { exists 1. do 2 eexists. repeat split; [cbn; lia | eassumption]. }
    match goal with
    | |- context [query_loop driver c qs ?r (f, ?w')] =>
        specialize (IH r w');
        destruct (query_loop driver c qs r (f, w')) as [[rs|e] [f' w'']]
    end; cbn [fst snd log executed] in *.
    + destruct IH as [IH1 IH2]. split.
      * rewrite IH1, <- app_assoc. reflexivity.
      * rewrite IH2, length_app. cbn. lia.
    + destruct IH as (k & c0 & l & Hk & Hex & Hlog & Hr).
      exists (S k), c0, l. repeat split; [cbn; lia | | assumption | assumption].
      rewrite Hex, <- app_assoc. reflexivity.
Qed.

(** X4. When [query] returns, it has executed every piece of the patched
    script, in order, and returns one response for each: one more than
    there are [;] in the script.  The session it opened is closed. *)
Theorem query_one_response_per_piece (self : database) (text : string)
    (w : world) (responses : list (list (list pyval))) :
  fst (query driver self text w) = Ok responses ->
  List.length responses = S (count_char ";" text)
  /\ executed (log (snd (query driver self text w)))
     = (executed (log w) ++ Str.split ";" (validate_query text))%list
  /\ sessions_released w (snd (query driver self text w)).
Proof.
  intros H. split; [|split; [|apply query_releases]];
    revert H; unfold query; run; (raise_or_not; [discriminate|]);
    match goal with
    | |- context [query_loop driver ?c ?qs ?r (?f, ?w')] =>
        pose proof (query_loop_trace c qs r f w') as Ht;
        destruct (query_loop_keeps driver c qs r f w') as [Hf _];
        destruct (query_loop driver c qs r (f, w')) as [[rs|e] [f' w'']]
    end; cbn [fst snd] in *; subst f'; run; try discriminate;
    intros [= ->]; destruct Ht as [Ht1 Ht2].
  - rewrite Ht2, length_split, count_char_validate_query by reflexivity.
    reflexivity.
  - exact Ht1.
Qed.

Lemma all_returned_app (base m1 m2 : list call) :
  all_returned driver (m2 ++ base)%list m1 ->
  all_returned driver base m2 ->
  all_returned driver base (m1 ++ m2)%list.
Proof.
  induction m1 as [|c m1 IH]; intros H1 H2; [exact H2|].
  destruct H1 as [Hc H1]. cbn [app all_returned]. split.
  - now rewrite <- app_assoc.
  - now apply IH.
Qed.

(** The loop of [query] raises in exactly one way: some piece [q] of number
    [k] is reached, every call before the failing one has returned, and the
    failing call is the [execute] of [q], the [fetchall] on its cursor or
    the [commit] behind it. *)
Lemma query_loop_stops (c : nat) (qs : list string)
    (responses : list (list (list pyval))) (f : frame) (w : world) (e : exn) :
  fst (query_loop driver c qs responses (f, w)) = Raise e ->
  exists k q c0 mid,
    nth_error qs k = Some q
    /\ executed (log (snd (snd (query_loop driver c qs responses (f, w)))))
       = (executed (log w) ++ firstn (S k) qs)%list
    /\ log (snd (snd (query_loop driver c qs responses (f, w))))
       = c0 :: (mid ++ log w)%list
    /\ raises driver (mid ++ log w)%list c0 = Some e
    /\ all_returned driver (log w) mid
    /\ (c0 = Execute q c
        \/ (exists l0, (mid ++ log w)%list = Execute q c :: l0
                       /\ c0 = FetchAll (List.length l0))
        \/ (exists l0, (mid ++ log w)%list
                       = FetchAll (List.length l0) :: Execute q c :: l0
                       /\ c0 = Commit c)).
Proof.
  revert responses w. induction qs as [|q qs IH]; intros responses w.
  - discriminate.
  - cbn [query_loop]. run.
    raise_or_not.
    { intros [= ->]. exists 0, q, (Execute q c), [].
      cbn [nth_error firstn app all_returned].
      repeat split; [assumption | now left]. }
    raise_or_not.
    { intros [= ->].
      exists 0, q, (FetchAll (List.length (log w))), [Execute q c].
      cbn [nth_error firstn app all_returned].
      repeat split; [assumption | assumption |].
      right; left. now exists (log w). }
    raise_or_not.
    { intros [= ->].
      exists 0, q, (Commit c), [FetchAll (List.length (log w)); Execute q c].
      cbn [nth_error firstn app all_returned].
      repeat split; [assumption | assumption | assumption |].
      right; right. now exists (log w). }
    intros He.
    match type of He with
    | context [query_loop driver c qs ?r (f, ?w')] =>
        destruct (IH r w' He) as (k & q' & c0 & mid & Hk & Hex & Hlog & Hr & Hall & Hc0)
    end.
    cbn [log] in Hex, Hlog, Hr, Hall, Hc0.
    exists (S k), q', c0,
      (mid ++ [Commit c; FetchAll (List.length (log w)); Execute q c])%list.
    rewrite <- !app_assoc. cbn [app].
    split; [exact Hk|]. split.
    { rewrite Hex. cbn [executed firstn]. rewrite <- app_assoc. reflexivity. }
    split; [exact Hlog|]. split; [exact Hr|]. split; [|exact Hc0].
    apply all_returned_app; [exact Hall|].
    cbn [all_returned app]. repeat split; assumption.
Qed.

(** X5. [query] stops at the first call that raises, and raises its error.
    When it is the connection that cannot be opened, nothing else is called
    and the world is left with that one call.  Otherwise the failing call
    belongs to one piece of the script (its [execute], the [fetchall] on its
    cursor or the [commit] behind it), every call before it has returned,
    the statements passed to the driver are the pieces up to that one and
    nothing behind it, and the one call made after the failing one is
    [connection.close()] on the session [query] opened, which is released. *)
Theorem query_stops_at_first_error (self : database) (text : string)
    (w : world) (e : exn) :
  let h := List.length (log w) in
  let pieces := Str.split ";" (validate_query text) in
  let after := snd (query driver self text w) in
  fst (query driver self text w) = Raise e ->
  (raises driver (log w) (Connect self) = Some e
   /\ after = logged (Connect self) w)
  \/ (raises driver (log w) (Connect self) = None
      /\ exists k q c0 mid,
           nth_error pieces k = Some q
           /\ executed (log after) = (executed (log w) ++ firstn (S k) pieces)%list
           /\ log after
              = ConnectionClose h :: c0 :: (mid ++ Connect self :: log w)%list
           /\ raises driver (mid ++ Connect self :: log w)%list c0 = Some e
           /\ all_returned driver (Connect self :: log w) mid
           /\ (c0 = Execute q h
               \/ (exists l0, (mid ++ Connect self :: log w)%list = Execute q h :: l0
                              /\ c0 = FetchAll (List.length l0))
               \/ (exists l0, (mid ++ Connect self :: log w)%list
                              = FetchAll (List.length l0) :: Execute q h :: l0
                              /\ c0 = Commit h))
           /\ sessions after = release h (h :: sessions w)).
Proof.
  cbv zeta. unfold query. run. raise_or_not.
  - intros [= ->]. left. now split.
  - intros He. right. split; [reflexivity|]. revert He.
    match goal with
    | |- context [query_loop driver ?c ?qs ?r (?f, ?w')] =>
        pose proof (query_loop_stops c qs r f w' e) as Ht;
        destruct (query_loop_keeps driver c qs r f w') as [Hf Hs];
        destruct (query_loop driver c qs r (f, w')) as [[rs|e'] [f' w'']]
    end; cbn [fst snd log sessions] in *; subst f'; run; [discriminate|].
    intros [= ->].
    destruct (Ht eq_refl) as (k & q & c0 & mid & Hk & Hex & Hlog & Hr & Hall & Hc0).
    exists k, q, c0, mid. cbn [executed] in *.
    rewrite Hs, Hex, Hlog.
    split; [exact Hk|]. split; [reflexivity|]. split; [reflexivity|].
    split; [exact Hr|]. split; [exact Hall|]. split; [exact Hc0 | reflexivity].
Qed.

(** X6. When the connection cannot be opened, [select_query], [get_schema]
    and both [insert] methods raise [UnboundLocalError] from their [finally]
    block in the place of the driver's error, while [query], which connects
    before its [try], raises the driver's error.  No session is open
    afterwards and no other call has reached the driver. *)
Theorem connection_failure (self : database) (w : world) (e : exn) :
  raises driver (log w) (Connect self) = Some e ->
  (forall text,
     select_query driver self text w
     = (Raise UnboundLocalError, logged (Connect self) w))
  /\ (forall text,
        query driver self text w = (Raise e, logged (Connect self) w))
  /\ (forall values rows text kwargs,
        validate_insert_values values = Ok rows ->
        insert driver self values text kwargs w
        = (Raise UnboundLocalError, logged (Connect self) w))
  /\ (forall filepath,
        self = SQLiteDatabase filepath ->
        get_schema driver filepath w
        = (Raise UnboundLocalError, logged (Connect self) w)).
Proof.
  intros H. split; [|split; [|split]].
  - intros text. unfold select_query. run. now rewrite H.
  - intros text. unfold query. run. now rewrite H.
  - intros values rows text kwargs Hv.
    destruct (statement_for_returns self text kwargs) as [q Hq].
    unfold insert. run. rewrite Hv. run. rewrite Hq. run.
    destruct self; run; now rewrite H.
  - intros filepath ->. unfold get_schema. run. now rewrite H.
Qed.

(** X7. Once connected, [select_query] hands [read_sql] the patched text,
    once, closes the connection as its last call, and returns the frame
    [read_sql] returned or raises the error it raised. *)
Theorem select_query_outcome (self : database) (text : string) (w : world) :
  raises driver (log w) (Connect self) = None ->
  let h := List.length (log w) in
  let calls := ReadSql (validate_query text) h :: Connect self :: log w in
  select_query driver self text w
  = (match raises driver (Connect self :: log w) (ReadSql (validate_query text) h) with
     | Some e => Raise e
     | None => Ok (dataframe_of driver calls)
     end,
     {| log := ConnectionClose h :: calls;
        sessions := release h (h :: sessions w);
        cursors := cursors w |}).
Proof.
  intros H. unfold select_query. run. rewrite H. run.
  now raise_or_not.
Qed.

(** X8. Once connected, [SQLiteDatabase.insert] passes [executemany] the
    statement and the sanitized rows, commits only when [executemany] has
    returned, closes the connection as its last call in every case, and
    raises the error of the call that failed. *)
Theorem sqlite_insert_outcome (filepath : string) (values rows : list (list pyval))
    (text : option string) (kwargs : insert_kwargs) (q : string) (w : world) :
  let self := SQLiteDatabase filepath in
  let h := List.length (log w) in
  let many := ExecuteMany q rows h :: Connect self :: log w in
  validate_insert_values values = Ok rows ->
  statement_for self text kwargs = Ok q ->
  raises driver (log w) (Connect self) = None ->
  insert driver self values text kwargs w
  = match raises driver (Connect self :: log w) (ExecuteMany q rows h) with
    | Some e =>
        (Raise e,
         {| log := ConnectionClose h :: many;
            sessions := release h (h :: sessions w);
            cursors := cursors w |})
    | None =>
        (match raises driver many (Commit h) with
         | Some e => Raise e
         | None => Ok tt
         end,
         {| log := ConnectionClose h :: Commit h :: many;
            sessions := release h (h :: sessions w);
            cursors := cursors w |})
    end.
Proof.
  cbv zeta. intros Hv Hq Hc. unfold insert. run.
  rewrite Hv. run. rewrite Hq. run. rewrite Hc. run.
  raise_or_not; [reflexivity|].
  now raise_or_not.
Qed.


(** X10. When the rows cannot be sanitized, [insert] raises before it
    connects: the world of the driver is as it was.  The statement itself
    is always built, the dialect being the one of the database object. *)
Theorem insert_fails_before_connecting (self : database)
    (values : list (list pyval)) (text : option string)
    (kwargs : insert_kwargs) (w : world) (e : exn) :
  validate_insert_values values = Raise e ->
  insert driver self values text kwargs w = (Raise e, w)
  /\ exists q, statement_for self text kwargs = Ok q.
Proof.
  intros H. split; [|apply statement_for_returns].
  unfold insert. run. rewrite H. reflexivity.
Qed.

End Traces.

Lemma query_one_response_per_piece_witness :
  executed (log (snd (query stocked (SQLiteDatabase "db.sqlite")
                        "SELECT 1;SELECT (2,);" new_world)))
  = ["SELECT 1"; "SELECT (2)"; ""].
Proof.
  destruct (query_one_response_per_piece stocked (SQLiteDatabase "db.sqlite")
              "SELECT 1;SELECT (2,);" new_world
              [[[PyInt 1]]; [[PyInt 1]]; [[PyInt 1]]] eq_refl)
    as (_ & H & _).
  exact H.
Defined.

Lemma query_stops_at_first_error_witness :
  let db := SQLiteDatabase "db.sqlite" in
  let after := snd (query flaky db "a;b;c;d" new_world) in
  (raises flaky [] (Connect db) = Some (DriverError 3)
   /\ after = logged (Connect db) new_world)
  \/ (raises flaky [] (Connect db) = None
      /\ exists k q c0 mid,
           nth_error ["a"; "b"; "c"; "d"] k = Some q
           /\ executed (log after) = firstn (S k) ["a"; "b"; "c"; "d"]
           /\ log after = ConnectionClose 0 :: c0 :: (mid ++ [Connect db])%list
           /\ raises flaky (mid ++ [Connect db])%list c0 = Some (DriverError 3)
           /\ all_returned flaky [Connect db] mid
           /\ (c0 = Execute q 0
               \/ (exists l0, (mid ++ [Connect db])%list = Execute q 0 :: l0
                              /\ c0 = FetchAll (List.length l0))
               \/ (exists l0, (mid ++ [Connect db])%list
                              = FetchAll (List.length l0) :: Execute q 0 :: l0
                              /\ c0 = Commit 0))
           /\ sessions after = []).
Proof.
  apply (query_stops_at_first_error flaky (SQLiteDatabase "db.sqlite") "a;b;c;d"
           new_world (DriverError 3)).
  reflexivity.
Defined.

Lemma connection_failure_witness :
  select_query connect_fails (SQLiteDatabase "db.sqlite") "SELECT 1" new_world
  = (Raise UnboundLocalError, logged (Connect (SQLiteDatabase "db.sqlite")) new_world)
  /\ query connect_fails (SQLiteDatabase "db.sqlite") "SELECT 1" new_world
     = (Raise (DriverError 2), logged (Connect (SQLiteDatabase "db.sqlite")) new_world).
Proof.
  destruct (connection_failure connect_fails (SQLiteDatabase "db.sqlite") new_world
              (DriverError 2) eq_refl) as (Hs & Hq & _).
  split; [apply Hs | apply Hq].
Defined.

Lemma select_query_outcome_witness :
  select_query flaky (SQLiteDatabase "db.sqlite") "SELECT (1,)" new_world
  = (Raise (DriverError 5),
     {| log := [ConnectionClose 0; ReadSql "SELECT (1)" 0;
                Connect (SQLiteDatabase "db.sqlite")];
        sessions := []; cursors := [] |}).
Proof.
  apply (select_query_outcome flaky (SQLiteDatabase "db.sqlite") "SELECT (1,)"
           new_world).
  reflexivity.
Defined.

Lemma sqlite_insert_outcome_witness :
  insert flaky (SQLiteDatabase "db.sqlite") [[PyFloat S754_nan]] (Some "INSERT") 
    {| table_name := "t"; fields := ["a"]; on_conflict_fields := None;
       ignore_on_conflict := false |} new_world
  = (Raise (DriverError 4),
     {| log := [ConnectionClose 0; ExecuteMany "INSERT" [[PyNone]] 0;
                Connect (SQLiteDatabase "db.sqlite")];
        sessions := []; cursors := [] |}).
Proof.
  apply (sqlite_insert_outcome flaky "db.sqlite" [[PyFloat S754_nan]] [[PyNone]]
           (Some "INSERT")
           {| table_name := "t"; fields := ["a"]; on_conflict_fields := None;
              ignore_on_conflict := false |} "INSERT" new_world);
    reflexivity.
Defined.


Lemma insert_fails_before_connecting_witness :
  insert quiet (SQLiteDatabase "db.sqlite") [[PyInt (2 ^ 1024)]] None
    {| table_name := "t"; fields := ["a"]; on_conflict_fields := None;
       ignore_on_conflict := false |} new_world
  = (Raise OverflowError, new_world).
Proof.
  apply (insert_fails_before_connecting quiet (SQLiteDatabase "db.sqlite")
           [[PyInt (2 ^ 1024)]] None
           {| table_name := "t"; fields := ["a"]; on_conflict_fields := None;
              ignore_on_conflict := false |} new_world OverflowError).
  vm_compute. reflexivity.
Defined.

(** ** More on [validate_insert_values] *)

Section SanitizerFacts.

Lemma sanitized_idempotent (v : pyval) : sanitized (sanitized v) = sanitized v.
Proof. destruct v; try reflexivity; destruct x; reflexivity. Qed.

Lemma convertible_sanitized (v : pyval) : convertible (sanitized v) = convertible v.
Proof. destruct v; try reflexivity; destruct x; reflexivity. Qed.

Lemma float_nan_sanitized (v : pyval) : float_nan (sanitized v) = false.
Proof. destruct v; try reflexivity; destruct x; reflexivity. Qed.

Lemma sanitized_fixed (v : pyval) : sanitized v = v <-> float_nan v = false.
Proof.
  unfold sanitized. destruct (float_nan v) eqn:E.
  - split; [|discriminate]. intros H. subst v. discriminate.
  - now split.
Qed.

Lemma forallb_convertible_sanitized (values : list (list pyval)) :
  forallb (forallb convertible) (map (map sanitized) values)
  = forallb (forallb convertible) values.
Proof.
  induction values as [|row values IH]; [reflexivity|].
  cbn [map forallb]. rewrite IH. f_equal.
  induction row as [|v row IHr]; [reflexivity|].
  cbn [map forallb]. now rewrite convertible_sanitized, IHr.
Qed.

Lemma map_fixed {A : Type} (f : A -> A) (l : list A) :
  map f l = l <-> forall x, In x l -> f x = x.
Proof.
  induction l as [|a l IH]; [now split|]. cbn [map]. split.
  - intros [= Ha Hl] x [<-|Hx]; [exact Ha | now apply IH].
  - intros H. f_equal; [apply H; now left|]. apply IH. intros x Hx. apply H. now right.
Qed.

Lemma validate_insert_values_returns (values out : list (list pyval)) :
  validate_insert_values values = Ok out ->
  forallb (forallb convertible) values = true /\ out = map (map sanitized) values.
Proof.
  rewrite validate_insert_values_eq.
  destruct (forallb (forallb convertible) values); [|discriminate].
  intros [= <-]. now split.
Qed.

End SanitizerFacts.

(** X11. Sanitizing twice is sanitizing once: what [validate_insert_values]
    returns is returned unchanged when passed to it again, and holds no
    NaN that is an instance of [float]. *)
Theorem validate_insert_values_idempotent (values out : list (list pyval)) :
  validate_insert_values values = Ok out ->
  validate_insert_values out = Ok out
  /\ forall row v, In row out -> In v row -> float_nan v = false.
Proof.
  intros H. apply validate_insert_values_returns in H as [Hc ->]. split.
  - rewrite validate_insert_values_eq, forallb_convertible_sanitized, Hc.
    f_equal. rewrite map_map. apply map_ext. intros row.
    rewrite map_map. apply map_ext. intros v. apply sanitized_idempotent.
  - intros row v Hrow Hv.
    apply in_map_iff in Hrow as [row0 [<- _]].
    apply in_map_iff in Hv as [v0 [<- _]]. apply float_nan_sanitized.
Qed.

Lemma validate_insert_values_idempotent_witness :
  validate_insert_values [[PyNone; NpFloat32 S754_nan; PyInt 4]]
  = Ok [[PyNone; NpFloat32 S754_nan; PyInt 4]].
Proof.
  apply (validate_insert_values_idempotent
           [[NpFloat64 S754_nan; NpFloat32 S754_nan; PyInt 4]]).
  reflexivity.
Defined.

(** X12. [validate_insert_values] returns its argument unchanged exactly
    when no entry is a NaN instance of [float] and every [int] entry is
    within the range of a double. *)
Theorem validate_insert_values_identity (values : list (list pyval)) :
  validate_insert_values values = Ok values
  <-> (forall row v, In row values -> In v row ->
                     float_nan v = false /\ convertible v = true).
Proof.
  split.
  - intros H. apply validate_insert_values_returns in H as [Hc Hm].
    intros row v Hrow Hv. split.
    + symmetry in Hm. apply sanitized_fixed.
      rewrite map_fixed in Hm. specialize (Hm row Hrow).
      rewrite map_fixed in Hm. now apply Hm.
    + rewrite forallb_forall in Hc. specialize (Hc row Hrow).
      rewrite forallb_forall in Hc. now apply Hc.
  - intros H. rewrite validate_insert_values_eq.
    replace (forallb (forallb convertible) values) with true.
    + f_equal. apply map_fixed. intros row Hrow. apply map_fixed.
      intros v Hv. apply sanitized_fixed. now apply (H row v).
    + symmetry. apply forallb_forall. intros row Hrow.
      apply forallb_forall. intros v Hv. now apply (H row v).
Qed.

Lemma validate_insert_values_identity_witness :
  validate_insert_values [[PyStr "a"; NpInt64 1]; [PyFloat (S754_zero false)]]
  = Ok [[PyStr "a"; NpInt64 1]; [PyFloat (S754_zero false)]].
Proof.
  apply (validate_insert_values_identity
           [[PyStr "a"; NpInt64 1]; [PyFloat (S754_zero false)]]).
  intros row v Hrow Hv. simpl in Hrow.
  destruct Hrow as [<- | [<- | []]]; simpl in Hv.
  - destruct Hv as [<- | [<- | []]]; now split.
  - destruct Hv as [<- | []]; now split.
Defined.

(** X13. [validate_insert_values] raises exactly when some row holds an
    [int] of magnitude [2^1024 - 2^970] or more, whatever else the rows
    hold; the error is [OverflowError]. *)
Theorem validate_insert_values_raises (values : list (list pyval)) :
  validate_insert_values values = Raise OverflowError
  <-> exists row n, In row values /\ In (PyInt n) row
                    /\ (float_overflow <= Z.abs n)%Z.
Proof.
  rewrite validate_insert_values_eq. split.
  - destruct (forallb (forallb convertible) values) eqn:E; [discriminate|].
    intros _. apply forallb_false in E as [row [Hrow E]].
    apply forallb_false in E as [v [Hv E]].
    apply not_convertible in E as [n [-> Hn]]. now exists row, n.
  - intros (row & n & Hrow & Hn & Hbig).
    destruct (forallb (forallb convertible) values) eqn:E; [|reflexivity].
    rewrite forallb_forall in E. specialize (E row Hrow).
    rewrite forallb_forall in E. specialize (E (PyInt n) Hn).
    unfold convertible, fits_float in E. apply Z.ltb_lt in E. lia.
Qed.

Lemma validate_insert_values_raises_witness :
  validate_insert_values [[PyStr "a"]; [PyFloat S754_nan; PyInt (- 2 ^ 1024)]]
  = Raise OverflowError.
Proof.
  apply (validate_insert_values_raises
           [[PyStr "a"]; [PyFloat S754_nan; PyInt (- 2 ^ 1024)]]).
  exists [PyFloat S754_nan; PyInt (- 2 ^ 1024)], (- 2 ^ 1024)%Z.
  split; [right; left; reflexivity|]. split; [right; left; reflexivity|].
  vm_compute. discriminate.
Defined.

(** ** Files, the catalog and the adapters of sqlite3 *)

Section Loading.

Variable driver : double.

Lemma read_table_sessions (filepath : string) (w : world) :
  sessions (snd (method (read_table driver filepath) w)) = sessions w.
Proof.
  unfold read_table. destruct (dict_get reader (extension_of filepath)); run;
    [now raise_or_not | reflexivity].
Qed.

Lemma read_table_supported (filepath : string) (d : decoder) (w : world) :
  dict_get reader (extension_of filepath) = Some d ->
  method (read_table driver filepath) w
  = (match raises driver (log w) (ReadFile d filepath) with
     | Some e => Raise e
     | None => Ok (dataframe_of driver (ReadFile d filepath :: log w))
     end,
     logged (ReadFile d filepath) w).
Proof.
  intros H. unfold read_table. rewrite H. run. now raise_or_not.
Qed.

Lemma join_values_strings (sep : string) (texts : list string) :
  join_values sep (map PyStr texts) = Ok (Str.join sep texts).
Proof.
  unfold Str.join. induction texts as [|x texts IH]; [reflexivity|].
  destruct texts as [|y texts]; [reflexivity|].
  change (map PyStr (x :: y :: texts)) with (PyStr x :: map PyStr (y :: texts)).
  change (join_values sep (PyStr x :: map PyStr (y :: texts)))
    with (rest <- join_values sep (map PyStr (y :: texts)) ;; Ok (x ++ sep ++ rest)).
  now rewrite IH.
Qed.

Lemma join_values_other (sep : string) (items : list pyval) (v : pyval) :
  In v items -> (forall t, v <> PyStr t) ->
  join_values sep items = Raise TypeError.
Proof.
  intros Hin Hv. induction items as [|a items IH]; [destruct Hin|].
  destruct Hin as [->|Hin].
  - destruct v; try reflexivity. now destruct (Hv s).
  - specialize (IH Hin). destruct a; try reflexivity.
    destruct items as [|b items]; [destruct Hin|].
    change (join_values sep (PyStr s :: b :: items))
      with (rest <- join_values sep (b :: items) ;; Ok (s ++ sep ++ rest)).
    now rewrite IH.
Qed.

(** X14. [read_table] tells the reader by what follows the last dot of the
    path, whatever the path holds before it: the reader registered for the
    extension is called once, with the whole path, and what it returns or
    raises is what [read_table] returns or raises.  No session is opened. *)
Theorem read_table_dispatch (stem ext : string) (d : decoder) (w : world) :
  In (ext, d) reader ->
  let filepath := stem ++ "." ++ ext in
  method (read_table driver filepath) w
  = (match raises driver (log w) (ReadFile d filepath) with
     | Some e => Raise e
     | None => Ok (dataframe_of driver (ReadFile d filepath :: log w))
     end,
     {| log := ReadFile d filepath :: log w;
        sessions := sessions w;
        cursors := cursors w |}).
Proof.
  intros Hin filepath. apply read_table_supported.
  unfold filepath.
  destruct Hin as [[= <- <-] | [[= <- <-] | [[= <- <-] | []]]];
    now rewrite extension_of_suffix.
Qed.

(** X15. When the reader raises, for a missing file say, [insert_file]
    raises that error: no session is opened and nothing is inserted. *)
Theorem insert_file_read_failure (self : database) (filepath table : string)
    (kwargs : file_kwargs) (d : decoder) (w : world) (e : exn) :
  dict_get reader (extension_of filepath) = Some d ->
  raises driver (log w) (ReadFile d filepath) = Some e ->
  insert_file driver self filepath table kwargs w
  = (Raise e, logged (ReadFile d filepath) w).
Proof.
  intros Hd He. unfold insert_file.
  rewrite (read_table_supported filepath d w Hd), He. reflexivity.
Qed.

(** X16. [insert_file] on an [SQLiteDatabase] leaves no session open,
    whichever call raises. *)
Theorem insert_file_sqlite_releases (database_path filepath table : string)
    (kwargs : file_kwargs) (w : world) :
  sessions_released w
    (snd (insert_file driver (SQLiteDatabase database_path) filepath table kwargs w)).
Proof.
  unfold sessions_released, insert_file.
  pose proof (read_table_sessions filepath w) as Hs.
  destruct (method (read_table driver filepath) w) as [[df|e] w']; cbn [snd] in *.
  - rewrite <- Hs. apply sqlite_insert_releases.
  - rewrite Hs. apply incl_refl.
Qed.

(** X17. [insert_file] without options on an [SQLiteDatabase]: when the
    file is read, its rows are sanitized and the connection opens,
    [executemany] is passed those rows with the patched plain insert over
    the columns of the file, one [?] for each column. *)
Theorem insert_file_statement (database_path filepath table : string)
    (d : decoder) (rows : list (list pyval)) (w : world) :
  let self := SQLiteDatabase database_path in
  let df := dataframe_of driver (ReadFile d filepath :: log w) in
  dict_get reader (extension_of filepath) = Some d ->
  raises driver (log w) (ReadFile d filepath) = None ->
  validate_insert_values (records df) = Ok rows ->
  raises driver (ReadFile d filepath :: log w) (Connect self) = None ->
  In (ExecuteMany (validate_query (plain_statement table (columns df) "?")) rows
        (S (List.length (log w))))
     (log (snd (insert_file driver self filepath table
                  {| kw_query := None; kw_fields := None;
                     kw_on_conflict_fields := None;
                     kw_ignore_on_conflict := None |} w))).
Proof.
  cbv zeta. intros Hd Hr Hv Hc. unfold insert_file.
  rewrite (read_table_supported filepath d w Hd), Hr. cbn [get kw_query kw_fields
    kw_on_conflict_fields kw_ignore_on_conflict].
  match goal with
  | |- context [insert driver ?s ?v ?t ?k ?w'] =>
      pose proof (sqlite_insert_outcome driver database_path v rows t k
                    (validate_query (plain_statement table
                       (columns (dataframe_of driver (ReadFile d filepath :: log w)))
                       "?")) w' Hv) as Ho
  end.
  cbv zeta in Ho. rewrite Ho.
  - cbn [logged log List.length].
    destruct (raises driver _ (ExecuteMany _ _ _)); cbn [snd log].
    + right. now left.
    + do 2 right. now left.
  - unfold statement_for. cbn [table_name fields on_conflict_fields
      ignore_on_conflict language_of].
    apply (get_insert_query_plain_eq table _ "sqlite" embedded None false);
      [reflexivity | now left].
  - exact Hc.
Qed.

(** X18. Once connected and the catalog read, [get_schema] closes the
    connection and only then joins the [sql] column: it returns the texts
    with an empty line between them, raises [KeyError] when the frame has
    no [sql] column, and [TypeError] when an entry of the column is not a
    string. *)
Theorem get_schema_outcome (filepath : string) (w : world) :
  let self := SQLiteDatabase filepath in
  let h := List.length (log w) in
  let catalog :=
    validate_query "SELECT * FROM sqlite_master WHERE type IN ('table', 'view')" in
  let calls := ReadSql catalog h :: Connect self :: log w in
  let df := dataframe_of driver calls in
  raises driver (log w) (Connect self) = None ->
  raises driver (Connect self :: log w) (ReadSql catalog h) = None ->
  snd (get_schema driver filepath w)
  = {| log := ConnectionClose h :: calls;
       sessions := release h (h :: sessions w);
       cursors := cursors w |}
  /\ (forall texts,
        column df "sql" = Ok (map PyStr texts) ->
        fst (get_schema driver filepath w)
        = Ok (Str.join (newline ++ newline) texts))
  /\ (index_of "sql" (columns df) = None ->
      fst (get_schema driver filepath w) = Raise KeyError)
  /\ (forall items v,
        column df "sql" = Ok items -> In v items -> (forall t, v <> PyStr t) ->
        fst (get_schema driver filepath w) = Raise TypeError).
Proof.
  cbv zeta. intros Hc Hr.
  assert (E : get_schema driver filepath w
              = (match column (dataframe_of driver
                          (ReadSql (validate_query
                             "SELECT * FROM sqlite_master WHERE type IN ('table', 'view')")
                             (List.length (log w))
                           :: Connect (SQLiteDatabase filepath) :: log w)) "sql" with
                 | Ok schema => join_values (newline ++ newline) schema
                 | Raise e => Raise e
                 end,
                 {| log := ConnectionClose (List.length (log w))
                           :: ReadSql (validate_query
                                "SELECT * FROM sqlite_master WHERE type IN ('table', 'view')")
                                (List.length (log w))
                           :: Connect (SQLiteDatabase filepath) :: log w;
                    sessions := release (List.length (log w))
                                  (List.length (log w) :: sessions w);
                    cursors := cursors w |})).
  { unfold get_schema. run. rewrite Hc. run.
    rewrite Hr. run.
    destruct (column _ "sql"); reflexivity. }
  rewrite E. cbn [fst snd]. split; [reflexivity|]. split; [|split].
  - intros texts Ht. rewrite Ht. apply join_values_strings.
  - intros Hi. unfold column. now rewrite Hi.
  - intros items v Hi Hin Hv. rewrite Hi. now apply (join_values_other _ _ v).
Qed.

(** X19. [query_from_file] touches nothing when the script cannot be read,
    and leaves no session open otherwise; the statements it passes to the
    driver are pieces of the patched script. *)
Theorem query_from_file_sessions (read_text : string -> result string)
    (self : database) (filepath : string) (w : world) :
  sessions_released w (snd (query_from_file driver read_text self filepath w))
  /\ (forall e, read_text filepath = Raise e ->
                query_from_file driver read_text self filepath w = (Raise e, w))
  /\ (forall text q c,
        read_text filepath = Ok text ->
        In (Execute q c)
           (log (snd (query_from_file driver read_text self filepath w))) ->
        In (Execute q c) (log w) \/ In q (Str.split ";" (validate_query text))).
Proof.
  unfold query_from_file. split; [|split].
  - destruct (read_text filepath); [apply query_releases | apply incl_refl].
  - now intros e ->.
  - intros text q c ->. apply query_patched.
Qed.


End Loading.

Lemma read_table_dispatch_witness :
  method (read_table stocked "exports/2020.01/values.parquet") new_world
  = (Ok (dataframe_of stocked []),
     {| log := [ReadFile read_parquet "exports/2020.01/values.parquet"];
        sessions := []; cursors := [] |}).
Proof.
  apply (read_table_dispatch stocked "exports/2020.01/values" "parquet" read_parquet
           new_world).
  do 2 right. left. reflexivity.
Defined.

Lemma insert_file_read_failure_witness :
  insert_file flaky (PostgreSQLDatabase "db" "user" "secret") "missing.csv" "t"
    {| kw_query := None; kw_fields := None; kw_on_conflict_fields := None;
       kw_ignore_on_conflict := None |} new_world
  = (Raise (DriverError 6), logged (ReadFile read_csv "missing.csv") new_world).
Proof.
  apply (insert_file_read_failure flaky (PostgreSQLDatabase "db" "user" "secret")
           "missing.csv" "t" _ read_csv new_world (DriverError 6));
    reflexivity.
Defined.

Lemma insert_file_statement_witness :
  In (ExecuteMany
        ("INSERT INTO tables (" ++ Str.dq ++ "name" ++ Str.dq ++ ", " ++ Str.dq
           ++ "sql" ++ Str.dq ++ ") VALUES (?, ?)")
        [[PyStr "t"; PyStr "CREATE TABLE t (a)"];
         [PyStr "u"; PyStr "CREATE TABLE u (b)"]] 1)
     (log (snd (insert_file stocked (SQLiteDatabase "db.sqlite") "tables.pkl" "tables"
                  {| kw_query := None; kw_fields := None;
                     kw_on_conflict_fields := None;
                     kw_ignore_on_conflict := None |} new_world))).
Proof.
  apply (insert_file_statement stocked "db.sqlite" "tables.pkl" "tables" read_pickle
           [[PyStr "t"; PyStr "CREATE TABLE t (a)"];
            [PyStr "u"; PyStr "CREATE TABLE u (b)"]] new_world);
    reflexivity.
Defined.

Lemma get_schema_outcome_witness :
  fst (get_schema stocked "db.sqlite" new_world)
  = Ok ("CREATE TABLE t (a)" ++ newline ++ newline ++ "CREATE TABLE u (b)").
Proof.
  destruct (get_schema_outcome stocked "db.sqlite" new_world eq_refl eq_refl)
    as (_ & H & _).
  apply (H ["CREATE TABLE t (a)"; "CREATE TABLE u (b)"]). reflexivity.
Defined.

Lemma query_from_file_sessions_witness :
  query_from_file quiet (fun _ => Raise (DriverError 7)) (SQLiteDatabase "db.sqlite")
    "missing.sql" new_world
  = (Raise (DriverError 7), new_world).
Proof.
  destruct (query_from_file_sessions quiet (fun _ => Raise (DriverError 7))
              (SQLiteDatabase "db.sqlite") "missing.sql" new_world)
    as (_ & H & _).
  now apply H.
Defined.


(** ** The adapters registered with sqlite3 *)

Section SqliteAdapters.




End SqliteAdapters.



(** ** The requirements of [setup.py] *)

Section Requirements.

Import Setup.

Lemma replace_one_char (c : ascii) (s : string) :
  Str.replace (String c EmptyString) EmptyString s = without c s.
Proof.
  unfold Str.replace. induction s as [|a s IH]; [reflexivity|].
  change (Str.replace_from (String c EmptyString) EmptyString 0 (String a s))
    with (if String.prefix (String c EmptyString) (String a s)
          then EmptyString ++ Str.replace_from (String c EmptyString) EmptyString 0 s
          else String a (Str.replace_from (String c EmptyString) EmptyString 0 s)).
  rewrite prefix_cons, prefix_nil, andb_true_r, IH. reflexivity.
Qed.

Lemma tidy_without (requirement : string) :
  tidy requirement
  = without (ascii_of_nat 13) (without (ascii_of_nat 10) (strip requirement)).
Proof. unfold tidy, lf, cr. now rewrite !replace_one_char. Qed.

Lemma has_char_without (c : ascii) (s : string) : has_char c (without c s) = false.
Proof.
  induction s as [|a s IH]; [reflexivity|]. cbn [without].
  destruct (Ascii.eqb a c) eqn:E; [exact IH|]. cbn [has_char]. now rewrite E.
Qed.

Lemma has_char_without_other (c d : ascii) (s : string) :
  has_char d s = false -> has_char d (without c s) = false.
Proof.
  induction s as [|a s IH]; [reflexivity|]. cbn [has_char without].
  intros H. apply orb_false_elim in H as [Ha Hs].
  destruct (Ascii.eqb a c); [now apply IH|]. cbn [has_char]. now rewrite Ha, IH.
Qed.

Lemma without_absent (c : ascii) (s : string) :
  has_char c s = false -> without c s = s.
Proof.
  induction s as [|a s IH]; [reflexivity|]. cbn [has_char without].
  intros H. apply orb_false_elim in H as [Ha Hs]. now rewrite Ha, IH.
Qed.

Lemma first_char_rstrip (s : string) (c : ascii) :
  first_char s = Some c -> is_space c = false -> first_char (rstrip s) = Some c.
Proof.
  destruct s as [|a s]; [discriminate|]. intros [= ->] Hc. cbn [rstrip].
  destruct (rstrip s); [now rewrite Hc | reflexivity].
Qed.

Lemma first_char_lstrip (s : string) (c : ascii) :
  first_char (lstrip s) = Some c -> is_space c = false.
Proof.
  induction s as [|a s IH]; [discriminate|]. cbn [lstrip].
  destruct (is_space a) eqn:E; [exact IH|]. now intros [= <-].
Qed.

Lemma last_char_rstrip (s : string) (c : ascii) :
  last_char (rstrip s) = Some c -> is_space c = false.
Proof.
  induction s as [|a s IH]; [discriminate|]. cbn [rstrip].
  destruct (rstrip s) as [|b r] eqn:E.
  - destruct (is_space a) eqn:Ha; [discriminate|]. now intros [= <-].
  - exact IH.
Qed.

Lemma first_char_rstrip_inv (s : string) (c : ascii) :
  first_char (rstrip s) = Some c -> first_char s = Some c.
Proof.
  destruct s as [|a s]; [discriminate|]. cbn [rstrip].
  destruct (rstrip s); [destruct (is_space a); [discriminate|]|]; auto.
Qed.

Lemma trimmed_strip (s : string) : trimmed (strip s).
Proof.
  unfold strip. split.
  - intros c H. apply first_char_rstrip_inv in H. now apply first_char_lstrip in H.
  - apply last_char_rstrip.
Qed.

Lemma first_char_without (d : ascii) (s : string) :
  is_space d = true ->
  (forall c, first_char s = Some c -> is_space c = false) ->
  first_char (without d s) = first_char s.
Proof.
  intros Hd H. destruct s as [|a s]; [reflexivity|]. cbn [without].
  destruct (Ascii.eqb_spec a d) as [->|Ha]; [|reflexivity].
  specialize (H d eq_refl). congruence.
Qed.

Lemma last_char_cons (a : ascii) (s : string) (x : ascii) :
  last_char s = Some x -> last_char (String a s) = Some x.
Proof. destruct s; [discriminate | auto]. Qed.

Lemma last_char_some (s : string) :
  s <> EmptyString -> exists x, last_char s = Some x.
Proof.
  induction s as [|a s IH]; [congruence|]. intros _.
  destruct s as [|b s]; [now exists a|].
  destruct IH as [x Hx]; [discriminate|]. exists x. now apply last_char_cons.
Qed.

Lemma last_char_without_kept (d : ascii) (s : string) (x : ascii) :
  last_char s = Some x -> Ascii.eqb x d = false ->
  last_char (without d s) = Some x.
Proof.
  intros Hx Hd. induction s as [|a s IH]; [discriminate|].
  destruct s as [|b s].
  - injection Hx as ->. cbn [without]. now rewrite Hd.
  - specialize (IH Hx).
    change (without d (String a (String b s)))
      with (if Ascii.eqb a d then without d (String b s)
            else String a (without d (String b s))).
    destruct (Ascii.eqb a d); [exact IH | now apply last_char_cons].
Qed.

Lemma last_char_without (d : ascii) (s : string) (c : ascii) :
  is_space d = true ->
  (forall c, last_char s = Some c -> is_space c = false) ->
  last_char (without d s) = Some c -> is_space c = false.
Proof.
  intros Hd H Hc. destruct s as [|a s]; [discriminate|].
  destruct (last_char_some (String a s)) as [x Hx]; [discriminate|].
  pose proof (H x Hx) as Hsp.
  assert (Hxd : Ascii.eqb x d = false).
  { apply Ascii.eqb_neq. intros ->. congruence. }
  rewrite (last_char_without_kept d _ x Hx Hxd) in Hc. now injection Hc as <-.
Qed.

Lemma trimmed_without (d : ascii) (s : string) :
  is_space d = true -> trimmed s -> trimmed (without d s).
Proof.
  intros Hd [Hf Hl]. split.
  - intros c. rewrite first_char_without by assumption. apply Hf.
  - intros c. now apply last_char_without.
Qed.

Lemma trimmed_tidy (requirement : string) : trimmed (tidy requirement).
Proof.
  rewrite tidy_without.
  apply trimmed_without; [reflexivity|].
  apply trimmed_without; [reflexivity|]. apply trimmed_strip.
Qed.

Lemma lstrip_trimmed (s : string) :
  (forall c, first_char s = Some c -> is_space c = false) -> lstrip s = s.
Proof.
  destruct s as [|a s]; [reflexivity|]. intros H. cbn [lstrip].
  now rewrite (H a eq_refl).
Qed.

Lemma rstrip_trimmed (s : string) :
  (forall c, last_char s = Some c -> is_space c = false) -> rstrip s = s.
Proof.
  induction s as [|a s IH]; [reflexivity|]. intros H. cbn [rstrip].
  destruct s as [|b s].
  - cbn. now rewrite (H a eq_refl).
  - rewrite IH by (intros c Hc; now apply H). reflexivity.
Qed.

Lemma tidy_fixed (s : string) :
  trimmed s -> has_char (ascii_of_nat 10) s = false ->
  has_char (ascii_of_nat 13) s = false -> tidy s = s.
Proof.
  intros [Hf Hl] H10 H13. rewrite tidy_without. unfold strip.
  rewrite (lstrip_trimmed s Hf), (rstrip_trimmed s Hl).
  now rewrite (without_absent _ s H10), (without_absent _ s H13).
Qed.

Lemma tidy_no_breaks (requirement : string) :
  has_char (ascii_of_nat 10) (tidy requirement) = false
  /\ has_char (ascii_of_nat 13) (tidy requirement) = false.
Proof.
  rewrite tidy_without. split.
  - apply has_char_without_other, has_char_without.
  - apply has_char_without.
Qed.

End Requirements.

(** X21. Every requirement [setup.py] keeps is a line of the file without
    the whitespace at its ends and without line breaks: it is not empty,
    does not start with [#], has no line feed and no carriage return in it,
    and neither starts nor ends with whitespace. *)
Theorem requirements_kept (lines : list string) (requirement : string) :
  In requirement (Setup.requirements lines) ->
  requirement <> EmptyString
  /\ first_char requirement <> Some "#"%char
  /\ has_char (ascii_of_nat 10) requirement = false
  /\ has_char (ascii_of_nat 13) requirement = false
  /\ (forall c, first_char requirement = Some c -> Setup.is_space c = false)
  /\ (forall c, last_char requirement = Some c -> Setup.is_space c = false)
  /\ exists line, In line lines /\ requirement = Setup.tidy line.
Proof.
  unfold Setup.requirements. intros H. apply filter_In in H as [Hin Hk].
  apply in_map_iff in Hin as [line [<- Hline]].
  destruct (tidy_no_breaks line) as [H10 H13].
  destruct (trimmed_tidy line) as [Hf Hl].
  unfold Setup.kept in Hk. apply andb_prop in Hk as [_ Hk].
  destruct (Setup.tidy line) as [|c r] eqn:E; [discriminate|].
  split; [discriminate|]. split.
  - cbn. intros [= ->]. discriminate.
  - repeat split; try assumption. now exists line.
Qed.

Lemma requirements_kept_witness :
  "numpy>=1.20 # pinned" <> EmptyString
  /\ In "numpy>=1.20 # pinned"
        (Setup.requirements
           ["# drivers" ++ Setup.lf; "  numpy>=1.20 # pinned " ++ Setup.cr ++ Setup.lf;
            Setup.lf; "pandas"]).
Proof.
  assert (H : In "numpy>=1.20 # pinned"
                (Setup.requirements
                   ["# drivers" ++ Setup.lf;
                    "  numpy>=1.20 # pinned " ++ Setup.cr ++ Setup.lf;
                    Setup.lf; "pandas"]))
    by (left; reflexivity).
  split; [|exact H].
  apply (requirements_kept _ _ H).
Defined.

(** X22. Reading the requirements is stable: the list [setup.py] computes,
    passed through the same two comprehensions again, comes out as it is. *)
Theorem requirements_idempotent (lines : list string) :
  Setup.requirements (Setup.requirements lines) = Setup.requirements lines.
Proof.
  assert (H : forall rs,
             (forall r, In r rs -> Setup.kept r = true /\ Setup.tidy r = r) ->
             Setup.requirements rs = rs).
  { unfold Setup.requirements. induction rs as [|r rs IH]; [reflexivity|].
    intros Hall. destruct (Hall r (or_introl eq_refl)) as [Hk Ht].
    cbn [map filter]. rewrite Ht, Hk. f_equal.
    apply IH. intros x Hx. apply Hall. now right. }
  apply H. intros r Hr. split.
  - unfold Setup.requirements in Hr. now apply filter_In in Hr.
  - unfold Setup.requirements in Hr. apply filter_In in Hr as [Hin _].
    apply in_map_iff in Hin as [line [<- _]].
    destruct (tidy_no_breaks line) as [H10 H13].
    apply tidy_fixed; [apply trimmed_tidy | assumption | assumption].
Qed.

(** ** The keyword of the statement *)

Section Keyword.

Lemma prefix_app_sep (needle a b : string) (c : ascii) :
  has_char c needle = false ->
  String.prefix needle (a ++ String c b) = String.prefix needle a.
Proof.
  revert a. induction needle as [|n needle IH]; intros a H.
  - now rewrite !prefix_nil.
  - cbn [has_char] in H. apply orb_false_elim in H as [Hn Hneedle].
    destruct a as [|x a].
    + cbn [append]. rewrite prefix_cons, Ascii.eqb_sym, Hn. reflexivity.
    + change (String x a ++ String c b) with (String x (a ++ String c b)).
      rewrite !prefix_cons, IH by assumption. reflexivity.
Qed.

Lemma contains_app_sep (needle a b : string) (c : ascii) :
  needle <> EmptyString -> has_char c needle = false ->
  Str.contains needle (a ++ String c b)
  = Str.contains needle a || Str.contains needle b.
Proof.
  intros Hne H. induction a as [|x a IH].
  - pose proof (prefix_app_sep needle EmptyString b c H) as P.
    cbn [append] in *. rewrite contains_cons, P.
    change (Str.contains needle EmptyString)
      with (String.prefix needle EmptyString || false).
    now rewrite orb_false_r.
  - pose proof (prefix_app_sep needle (String x a) b c H) as P.
    cbn [append] in *. rewrite !contains_cons, IH, P.
    now rewrite orb_assoc.
Qed.

Lemma insert_free_sep (a b : string) (c : ascii) :
  has_char c "INSERT" = false -> insert_free a -> insert_free b ->
  insert_free (a ++ String c b).
Proof.
  unfold insert_free. intros Hc Ha Hb.
  rewrite contains_app_sep by (discriminate || assumption). now rewrite Ha, Hb.
Qed.

Lemma insert_free_quoted (field : string) :
  insert_free field -> insert_free (quoted field).
Proof.
  intros H. unfold quoted, Str.dq.
  apply (insert_free_sep EmptyString); [reflexivity | reflexivity |].
  apply insert_free_sep; [reflexivity | exact H | reflexivity].
Qed.

Lemma insert_free_join (parts : list string) :
  Forall insert_free parts -> insert_free (Str.join ", " parts).
Proof.
  unfold Str.join. induction 1 as [|x parts Hx Hparts IH]; [reflexivity|].
  destruct parts as [|y parts]; [exact Hx|].
  change (String.concat ", " (x :: y :: parts))
    with (x ++ String "," (EmptyString ++ String " " (String.concat ", " (y :: parts)))).
  apply insert_free_sep; [reflexivity | exact Hx |].
  apply insert_free_sep; [reflexivity | reflexivity | exact IH].
Qed.

Lemma insert_free_fields (fields : list string) :
  Forall insert_free fields -> insert_free (Str.join ", " (map quoted fields)).
Proof.
  intros H. apply insert_free_join.
  induction H; constructor; auto using insert_free_quoted.
Qed.

Lemma insert_free_tokens (n : nat) : insert_free (Str.join ", " (repeat "?" n)).
Proof.
  apply insert_free_join. induction n; constructor; [reflexivity | assumption].
Qed.

Lemma replace_from_absent (old new s : string) :
  Str.contains old s = false -> Str.replace_from old new 0 s = s.
Proof.
  induction s as [|c s IH]; [reflexivity|].
  rewrite contains_cons. intros H. apply orb_false_elim in H as [Hp Hs].
  cbn [Str.replace_from]. now rewrite Hp, IH.
Qed.

(** What stands behind [INSERT INTO ] in the plain statement. *)
Lemma insert_free_rest (table : string) (fields : list string) :
  insert_free table -> Forall insert_free fields ->
  insert_free (table ++ " (" ++ Str.join ", " (map quoted fields) ++ ") VALUES ("
                 ++ Str.join ", " (repeat "?" (List.length fields)) ++ ")").
Proof.
  intros Ht Hf.
  apply (insert_free_sep table _ " "); [reflexivity | exact Ht |].
  apply (insert_free_sep EmptyString _ "("); [reflexivity | reflexivity |].
  apply (insert_free_sep _ _ ")");
    [reflexivity | now apply insert_free_fields |].
  apply (insert_free_sep EmptyString _ " "); [reflexivity | reflexivity |].
  apply (insert_free_sep "VALUES" _ " "); [reflexivity | reflexivity |].
  apply (insert_free_sep EmptyString _ "("); [reflexivity | reflexivity |].
  apply (insert_free_sep _ EmptyString ")");
    [reflexivity | apply insert_free_tokens | reflexivity].
Qed.

Lemma validate_query_insert_into (rest : string) :
  validate_query ("INSERT INTO " ++ rest) = "INSERT INTO " ++ validate_query rest.
Proof. reflexivity. Qed.

Lemma validate_query_insert_or_ignore (rest : string) :
  validate_query ("INSERT OR IGNORE INTO " ++ rest)
  = "INSERT OR IGNORE INTO " ++ validate_query rest.
Proof. reflexivity. Qed.

End Keyword.

(** X23. Every statement [get_insert_query] returns starts with
    [INSERT INTO ] or with [INSERT OR IGNORE INTO ]. *)
Theorem get_insert_query_keyword
    (table : string) (fields : list string) (language : string)
    (on_conflict_fields : option (list string)) (ignore_on_conflict : bool)
    (q : string) :
  get_insert_query table fields language on_conflict_fields ignore_on_conflict
  = Ok q ->
  Str.startswith q "INSERT INTO " \/ Str.startswith q "INSERT OR IGNORE INTO ".
Proof.
  intros H. destruct (dialect_of language) as [d|] eqn:Hd.
  - assert (Hplain : forall tok rest,
              Str.startswith (validate_query (plain_statement table fields tok ++ rest))
                "INSERT INTO ").
    { intros tok rest. unfold plain_statement. eexists.
      rewrite !append_assoc. apply validate_query_insert_into. }
    destruct on_conflict_fields as [[|c cs]|].
    + rewrite (get_insert_query_plain_eq _ _ _ d) in H by auto.
      injection H as <-. left.
      rewrite <- (append_nil_r (plain_statement _ _ _)). apply Hplain.
    + unfold get_insert_query in H.
      rewrite (built_query_conflict _ _ _ d) in H by (assumption || discriminate).
      injection H as <-. unfold conflict_statement.
      destruct (nothing_to_update fields (c :: cs) ignore_on_conflict);
        [destruct d|]; try (left; apply Hplain).
      right. apply insert_or_ignore_prefix.
    + rewrite (get_insert_query_plain_eq _ _ _ d) in H by auto.
      injection H as <-. left.
      rewrite <- (append_nil_r (plain_statement _ _ _)). apply Hplain.
  - unfold get_insert_query in H. rewrite built_query_unrecognized in H by assumption.
    discriminate.
Qed.

Lemma get_insert_query_keyword_witness :
  Str.startswith
    ("INSERT OR IGNORE INTO t (" ++ Str.dq ++ "a" ++ Str.dq ++ ") VALUES (?)")
    "INSERT INTO "
  \/ Str.startswith
       ("INSERT OR IGNORE INTO t (" ++ Str.dq ++ "a" ++ Str.dq ++ ") VALUES (?)")
       "INSERT OR IGNORE INTO ".
Proof.
  apply (get_insert_query_keyword "t" ["a"] "sqlite" (Some ["a"]) true).
  reflexivity.
Defined.

(** X24. On the embedded dialect, when nothing is to be updated and neither
    the table name nor a field name holds [INSERT] or [,)], the statement
    is the plain insert with its keyword turned into [INSERT OR IGNORE]
    and nothing else changed.  (A name that holds [INSERT] is rewritten
    with the keyword.) *)
Theorem insert_or_ignore_statement
    (table : string) (fields conflict_fields : list string) (language : string)
    (ignore_on_conflict : bool) :
  dialect_of language = Some embedded ->
  conflict_fields <> [] ->
  nothing_to_update fields conflict_fields ignore_on_conflict = true ->
  clean table -> Forall clean fields ->
  insert_free table -> Forall insert_free fields ->
  get_insert_query table fields language (Some conflict_fields) ignore_on_conflict
  = Ok ("INSERT OR IGNORE INTO " ++ table ++ " ("
          ++ Str.join ", " (map quoted fields) ++ ") VALUES ("
          ++ Str.join ", " (repeat "?" (List.length fields)) ++ ")").
Proof.
  intros Hd Hc Hn Hct Hcf Hit Hif. unfold get_insert_query.
  rewrite (built_query_conflict _ _ _ embedded) by assumption.
  unfold conflict_statement. rewrite Hn. cbn [bind]. f_equal.
  set (rest := table ++ " (" ++ Str.join ", " (map quoted fields) ++ ") VALUES ("
                 ++ Str.join ", " (repeat "?" (List.length fields)) ++ ")").
  change (Str.replace "INSERT" "INSERT OR IGNORE" (plain_statement table fields "?"))
    with ("INSERT OR IGNORE INTO " ++ Str.replace_from "INSERT" "INSERT OR IGNORE" 0 rest).
  rewrite replace_from_absent by now apply insert_free_rest.
  rewrite validate_query_insert_or_ignore. f_equal.
  apply validate_query_clean.
  exact (clean_plain_statement table fields "?" Hct Hcf (conj eq_refl eq_refl)).
Qed.

Lemma insert_or_ignore_statement_witness :
  get_insert_query "t" ["a"; "b"] "SQLite" (Some ["b"; "a"]) false
  = Ok ("INSERT OR IGNORE INTO t (" ++ Str.dq ++ "a" ++ Str.dq ++ ", " ++ Str.dq
          ++ "b" ++ Str.dq ++ ") VALUES (?, ?)").
Proof.
  apply (insert_or_ignore_statement "t" ["a"; "b"] ["b"; "a"] "SQLite" false);
    try reflexivity; try discriminate; repeat constructor.
Defined.
